(** * AiBot: the chat client of [src/App.jsx]

    A shallow embedding of the session store and of the conversation
    controller of the [App] component, and the properties of the
    specification established on it.

    Conventions.
    - A JavaScript string is a [string]; each [ascii] stands for the UTF-16
      code unit of the same number (the Latin-1 range).
    - React state is a record [App]; a handler is a function on it that
      returns the state of the next render.  The effect registered with
      [useEffect(..., [messages])] is the function [saveEffect], run after
      a handler that gave [setMessages] an array other than the one in
      the state.
    - A callback that runs after its handler has returned (the load
      event of a file reader) is a function of its own.
    - [localStorage] is the sequence of payloads written under the key
      ['allChats'], newest first. *)

From Stdlib Require Import List String Ascii Bool Arith NArith ZArith Lia.
From Stdlib Require Import Floats.
From Stdlib Require Import Sorted Permutation.
From Stdlib Require Import Decimal DecimalString.
From Stdlib Require DecimalPos DecimalN DecimalFacts.
Import ListNotations.

Local Open Scope string_scope.
Local Open Scope list_scope.

(** ** JavaScript strings *)

Module JsString.

(** [WhiteSpace] and [LineTerminator] code units below 256, the ones
    [String.prototype.trim] strips: TAB, LF, VT, FF, CR, SP, NBSP. *)
Definition isWhiteSpace (c : ascii) : bool :=
  let n := nat_of_ascii c in
  ((9 <=? n)%nat && (n <=? 13)%nat) || (n =? 32)%nat || (n =? 160)%nat.

Fixpoint trimStart (s : string) : string :=
  match s with
  | EmptyString => EmptyString
  | String c s' => if isWhiteSpace c then trimStart s' else s
  end.

Fixpoint trimEnd (s : string) : string :=
  match s with
  | EmptyString => EmptyString
  | String c s' =>
      match trimEnd s' with
      | EmptyString =>
          if isWhiteSpace c then EmptyString else String c EmptyString
      | t => String c t
      end
  end.

(** [s.trim()] *)
Definition trim (s : string) : string := trimEnd (trimStart s).

(** Does [s] consist of white space only? *)
Fixpoint blank (s : string) : bool :=
  match s with
  | EmptyString => true
  | String c s' => isWhiteSpace c && blank s'
  end.

(** [cur] is the segment being read; [skip] counts the code units of a
    separator just matched that are still to be passed. *)
Fixpoint split_from (sep : string) (skip : nat) (cur : string) (s : string)
  : list string :=
  match s with
  | EmptyString => [cur]
  | String c s' =>
      match skip with
      | S k => split_from sep k cur s'
      | O =>
          if String.prefix sep s
          then cur :: split_from sep (String.length sep - 1) EmptyString s'
          else split_from sep 0 (cur ++ String c EmptyString) s'
      end
  end.

(** [s.split(sep)] for a separator that is not empty: the substrings
    between the successive occurrences of [sep], found left to right. *)
Definition split (sep : string) (s : string) : list string :=
  split_from sep 0 EmptyString s.

(** [a.join(sep)] on an array of strings *)
Fixpoint join (sep : string) (a : list string) : string :=
  match a with
  | [] => EmptyString
  | [x] => x
  | x :: rest => x ++ sep ++ join sep rest
  end.

(** [s.includes(sub)] *)
Fixpoint includes (sub : string) (s : string) : bool :=
  String.prefix sub s ||
  match s with
  | EmptyString => false
  | String _ s' => includes sub s'
  end.

(** [s.length > 0] *)
Definition nonEmpty (s : string) : bool :=
  match s with EmptyString => false | _ => true end.

End JsString.

Import JsString.

(** ** Completions: a JavaScript computation returns or throws *)

Inductive completion (A : Type) : Type :=
| Normal (a : A)
| Throw (message : string).
Arguments Normal {A} a.
Arguments Throw {A} message.

Definition bind {A B : Type} (m : completion A) (k : A -> completion B)
  : completion B :=
  match m with
  | Normal a => k a
  | Throw e => Throw e
  end.

Notation "x <- m ;; k" := (bind m (fun x => k))
  (at level 61, m at next level, right associativity).

(** ** Parsed JSON and the reads the component performs on it *)

Module Json.

#[warnings="-register-all"]
Inductive json : Type :=
| JNull
| JBool (b : bool)
| JNumber (n : float)
| JString (s : string)
| JArray (items : list json)
| JObject (members : list (string * json)).

(** A JavaScript value met while reading a parsed document: [undefined]
    is [None]. *)
Definition value : Type := option json.

Definition undefined : value := None.

(** [JSON.parse] keeps the last member of a repeated key. *)
Fixpoint member (key : string) (members : list (string * json)) : value :=
  match members with
  | [] => undefined
  | (k, v) :: rest =>
      match member key rest with
      | Some later => Some later
      | None => if (k =? key)%string then Some v else undefined
      end
  end.

(** [ToBoolean] *)
Definition toBoolean (v : value) : bool :=
  match v with
  | None => false
  | Some JNull => false
  | Some (JBool b) => b
  | Some (JNumber n) =>
      negb (PrimFloat.eqb n 0%float || negb (PrimFloat.eqb n n))
  | Some (JString s) => nonEmpty s
  | Some (JArray _) => true
  | Some (JObject _) => true
  end.

Definition nullish (v : value) : bool :=
  match v with
  | None | Some JNull => true
  | _ => false
  end.

(** [base.key] for one of the keys [candidates], [content], [parts],
    [text], which no built-in prototype defines: an own member of an
    object, [undefined] on an array or a primitive, a [TypeError] on
    [null] and [undefined]. *)
Definition get (base : value) (key : string) : completion value :=
  match base with
  | None =>
      Throw ("Cannot read properties of undefined (reading '" ++ key ++ "')")
  | Some JNull =>
      Throw ("Cannot read properties of null (reading '" ++ key ++ "')")
  | Some (JObject members) => Normal (member key members)
  | Some _ => Normal undefined
  end.

(** [base[0]]: the first element of an array, the first code unit of a
    string, the member ["0"] of an object. *)
Definition get0 (base : value) : completion value :=
  match base with
  | None => Throw "Cannot read properties of undefined (reading '0')"
  | Some JNull => Throw "Cannot read properties of null (reading '0')"
  | Some (JArray items) => Normal (nth_error items 0)
  | Some (JString (String c _)) =>
      Normal (Some (JString (String c EmptyString)))
  | Some (JObject members) => Normal (member "0" members)
  | Some _ => Normal undefined
  end.

(** [a || b] *)
Definition or (a b : value) : value := if toBoolean a then a else b.

End Json.

Import Json.

(** One link [base?.key] or [base?.[0]] of an optional chain: a nullish
    [base] ends the whole chain with [undefined]; otherwise the property
    is read and the chain goes on with [rest]. *)
Definition optionalChain (base : value) (read : value -> completion value)
  (rest : value -> completion value) : completion value :=
  if nullish base then Normal undefined else (v <- read base ;; rest v).

(** ** Data model: messages and sessions *)

Inductive Sender : Type := user | bot.

(** [text] is the question as typed for a user message and an array of
    lines for a bot message. *)
Inductive MessageText : Type :=
| Text (s : string)
| Lines (lines : list string).

Record Message : Type := mkMessage {
  sender : Sender;
  text : MessageText;
  timestamp : string
}.

Module Chat.

Record t : Type := mk {
  id : string;
  name : string;
  pinned : bool;
  messages : list Message
}.

(** [{ ...chat, messages }], [{ ...chat, name }], [{ ...chat, pinned }] *)
Definition with_messages (chat : t) (messages : list Message) : t :=
  mk (id chat) (name chat) (pinned chat) messages.

Definition with_name (chat : t) (name : string) : t :=
  mk (id chat) name (pinned chat) (messages chat).

Definition with_pinned (chat : t) (pinned : bool) : t :=
  mk (id chat) (name chat) pinned (messages chat).

End Chat.

(** ** [String.prototype.localeCompare]

    The collation is the host's.  ECMA-262 requires of it what is asked
    here: a consistent comparator, that is a total preorder on strings,
    returned as a negative, zero or positive number. *)

Class Collation : Type := {
  localeCompare : string -> string -> Z;
  localeCompare_antisym :
    forall a b, Z.sgn (localeCompare b a) = (- Z.sgn (localeCompare a b))%Z;
  localeCompare_trans :
    forall a b c,
      (localeCompare a b <= 0)%Z -> (localeCompare b c <= 0)%Z ->
      (localeCompare a c <= 0)%Z
}.

(** ** [Array.prototype.sort]

    The sort is stable (ECMA-262, since ES2019): with a consistent
    comparator its result is the one of a stable insertion sort. *)

Section Sort.

Context {A : Type} (compareFn : A -> A -> Z).

Fixpoint insert (x : A) (sorted : list A) : list A :=
  match sorted with
  | [] => [x]
  | y :: rest =>
      if (compareFn x y <=? 0)%Z then x :: y :: rest
      else y :: insert x rest
  end.

Fixpoint sort (a : list A) : list A :=
  match a with
  | [] => []
  | x :: rest => insert x (sort rest)
  end.

End Sort.

(** ** The session list *)

Section SessionList.

Context {collation : Collation}.

(** The comparator of [togglePinChat] and [importChats]:
    [if (a.pinned === b.pinned) return b.id.localeCompare(a.id);
     return b.pinned - a.pinned;] *)
Definition compareChats (a b : Chat.t) : Z :=
  if Bool.eqb (Chat.pinned a) (Chat.pinned b)
  then localeCompare (Chat.id b) (Chat.id a)
  else (Z.b2z (Chat.pinned b) - Z.b2z (Chat.pinned a))%Z.

Definition sortChats (chats : list Chat.t) : list Chat.t :=
  sort compareChats chats.

End SessionList.

(** [chatHistory.find(chat => chat.id === id)] *)
Definition findChat (id : string) (chats : list Chat.t) : option Chat.t :=
  find (fun chat => (Chat.id chat =? id)%string) chats.

(** [Date.now().toString()] for the clock reading [now] (milliseconds). *)
Definition toString (now : N) : string :=
  NilZero.string_of_uint (N.to_uint now).
(** ** The state of the component

    [currentSessionId] and [editingChatId] are [null] ([None]) or a
    session id.  [localStorage] lists the payloads of the successive
    [localStorage.setItem('allChats', JSON.stringify(...))], newest first,
    and is empty while the key is absent.  [alerts] lists the messages
    shown with [alert], newest first.  [messagesChanged] records that
    [setMessages] was called since the last render, so that the effect
    depending on [messages] is due. *)

Record App : Type := mkApp {
  question : string;
  messages : list Message;
  chatHistory : list Chat.t;
  currentSessionId : option string;
  isTyping : bool;
  searchTerm : string;
  attributionShown : bool;
  editingChatId : option string;
  renameText : string;
  localStorage : list (list Chat.t);
  alerts : list string;
  messagesChanged : bool
}.

(** The state setters. *)
Definition setQuestion (v : string) (st : App) : App :=
  mkApp v (messages st) (chatHistory st) (currentSessionId st)
    (isTyping st) (searchTerm st) (attributionShown st) (editingChatId st)
    (renameText st) (localStorage st) (alerts st) (messagesChanged st).

Definition setChatHistory (v : list Chat.t) (st : App) : App :=
  mkApp (question st) (messages st) v (currentSessionId st) (isTyping st)
    (searchTerm st) (attributionShown st) (editingChatId st) (renameText st)
    (localStorage st) (alerts st) (messagesChanged st).

Definition setCurrentSessionId (v : option string) (st : App) : App :=
  mkApp (question st) (messages st) (chatHistory st) v (isTyping st)
    (searchTerm st) (attributionShown st) (editingChatId st) (renameText st)
    (localStorage st) (alerts st) (messagesChanged st).

Definition setIsTyping (v : bool) (st : App) : App :=
  mkApp (question st) (messages st) (chatHistory st) (currentSessionId st)
    v (searchTerm st) (attributionShown st) (editingChatId st)
    (renameText st) (localStorage st) (alerts st) (messagesChanged st).

Definition setSearchTerm (v : string) (st : App) : App :=
  mkApp (question st) (messages st) (chatHistory st) (currentSessionId st)
    (isTyping st) v (attributionShown st) (editingChatId st)
    (renameText st) (localStorage st) (alerts st) (messagesChanged st).

Definition setEditingChatId (v : option string) (st : App) : App :=
  mkApp (question st) (messages st) (chatHistory st) (currentSessionId st)
    (isTyping st) (searchTerm st) (attributionShown st) v (renameText st)
    (localStorage st) (alerts st) (messagesChanged st).

Definition setRenameText (v : string) (st : App) : App :=
  mkApp (question st) (messages st) (chatHistory st) (currentSessionId st)
    (isTyping st) (searchTerm st) (attributionShown st) (editingChatId st)
    v (localStorage st) (alerts st) (messagesChanged st).

(** [setMessages(v)] with an array [v] that is not the one the state
    holds: the next render holds [v] and runs the effects that depend on
    [messages].  The array is a new one in every call of the component
    but the one of [loadSession]: an array literal, a spread, the array
    of a session just parsed, or the array of a session other than the
    active one. *)
Definition setMessages (v : list Message) (st : App) : App :=
  mkApp (question st) v (chatHistory st) (currentSessionId st)
    (isTyping st) (searchTerm st) (attributionShown st) (editingChatId st)
    (renameText st) (localStorage st) (alerts st) true.

(** [setMessages(v)] with the very array [v] that the state holds:
    React finds no change ([Object.is]), the state keeps the array and
    no effect becomes due. *)
Definition keepMessages (v : list Message) (st : App) : App :=
  mkApp (question st) v (chatHistory st) (currentSessionId st)
    (isTyping st) (searchTerm st) (attributionShown st) (editingChatId st)
    (renameText st) (localStorage st) (alerts st) (messagesChanged st).

(** [attributionShown.current = v] *)
Definition setAttributionShown (v : bool) (st : App) : App :=
  mkApp (question st) (messages st) (chatHistory st) (currentSessionId st)
    (isTyping st) (searchTerm st) v (editingChatId st) (renameText st)
    (localStorage st) (alerts st) (messagesChanged st).

(** [localStorage.setItem('allChats', JSON.stringify(payload))] *)
Definition setItem (payload : list Chat.t) (st : App) : App :=
  mkApp (question st) (messages st) (chatHistory st) (currentSessionId st)
    (isTyping st) (searchTerm st) (attributionShown st) (editingChatId st)
    (renameText st) (payload :: localStorage st) (alerts st)
    (messagesChanged st).

(** [alert(message)] *)
Definition alert (message : string) (st : App) : App :=
  mkApp (question st) (messages st) (chatHistory st) (currentSessionId st)
    (isTyping st) (searchTerm st) (attributionShown st) (editingChatId st)
    (renameText st) (localStorage st) (message :: alerts st)
    (messagesChanged st).

(** The effects due have run. *)
Definition rendered (st : App) : App :=
  mkApp (question st) (messages st) (chatHistory st) (currentSessionId st)
    (isTyping st) (searchTerm st) (attributionShown st) (editingChatId st)
    (renameText st) (localStorage st) (alerts st) false.

(** [JSON.parse(localStorage.getItem('allChats')) || []]: the list a
    reload of the page would read. *)
Definition getItem (st : App) : list Chat.t :=
  match localStorage st with
  | [] => []
  | payload :: _ => payload
  end.

(** [!currentSessionId]: [null] and the empty string are falsy. *)
Definition noSession (current : option string) : bool :=
  match current with
  | None => true
  | Some id => negb (nonEmpty id)
  end.

(** [chat.id === current] for the state value [current] *)
Definition isCurrent (current : option string) (chat : Chat.t) : bool :=
  match current with
  | None => false
  | Some id => (Chat.id chat =? id)%string
  end.

(** [m.text] as one string:
    [Array.isArray(m.text) ? m.text.join(' ') : m.text] *)
Definition flatText (m : Message) : string :=
  match text m with
  | Lines lines => join " " lines
  | Text s => s
  end.

Definition mentionsDeveloper (messages : list Message) : bool :=
  existsb (fun m => includes "developed by Sheryar Khan" (flatText m)) messages.

(** ** Effects *)

(** [useState] defaults, over the content of the store found at start. *)
Definition initial (stored : list (list Chat.t)) : App :=
  mkApp "" [] [] None false "" false None "" stored [] false.

(** "Load all sessions on start" *)
Definition loadEffect (st : App) : App :=
  let stored := getItem st in
  let st := setChatHistory stored st in
  match stored with
  | [] => st
  | first :: _ =>
      setAttributionShown (mentionsDeveloper (Chat.messages first))
        (setMessages (Chat.messages first)
           (setCurrentSessionId (Some (Chat.id first)) st))
  end.

(** "Save current session when messages change" *)
Definition saveEffect (st : App) : App :=
  if noSession (currentSessionId st) then st
  else
    let updatedChats :=
      map (fun chat =>
             if isCurrent (currentSessionId st) chat
             then Chat.with_messages chat (messages st)
             else chat)
          (chatHistory st) in
    setChatHistory updatedChats (setItem updatedChats st).

(** The render that follows a handler: the save effect runs when
    [messages] was set. *)
Definition commit (st : App) : App :=
  if messagesChanged st then saveEffect (rendered st) else st.

(** Mounting: both effects run on the first render, the save effect
    with [currentSessionId] still [null]; the render that follows runs
    the save effect again if the load effect set [messages]. *)
Definition mount (stored : list (list Chat.t)) : App :=
  commit (loadEffect (initial stored)).

(** ** Handlers of the session store *)

(** "Create new chat session" *)
Definition createNewSession (now : N) (st : App) : App :=
  let newId := toString now in
  let newSession := Chat.mk newId "New Chat" false [] in
  let updatedHistory := newSession :: chatHistory st in
  setAttributionShown false
    (setCurrentSessionId (Some newId)
       (setMessages []
          (setChatHistory updatedHistory (setItem updatedHistory st)))).

(** "Load an existing chat session".  [setMessages(session.messages)]
    is given an array that a session holds, and React compares it with
    the array in the state by identity.  The save effect puts the array
    of the state into the sessions with the active id
    ([{ ...chat, messages }]) and no handler puts it anywhere else, so
    the array given is the one in the state when the session clicked is
    the open one: then [messages] is not set and no effect is due.
    (With an empty active id the save effect returns at once, so that
    nothing depends on the comparison there.) *)
Definition loadSession (id : string) (st : App) : App :=
  match findChat id (chatHistory st) with
  | Some session =>
      setAttributionShown (mentionsDeveloper (Chat.messages session))
        ((if isCurrent (currentSessionId st) session
          then keepMessages (Chat.messages session)
          else setMessages (Chat.messages session))
           (setCurrentSessionId (Some id) st))
  | None => st
  end.

(** "Delete a chat session" *)
Definition deleteSession (id : string) (st : App) : App :=
  let updatedChats :=
    filter (fun chat => negb (Chat.id chat =? id)%string) (chatHistory st) in
  let st' := setChatHistory updatedChats (setItem updatedChats st) in
  match currentSessionId st with
  | Some current =>
      if (id =? current)%string then
        match updatedChats with
        | first :: _ =>
            setMessages (Chat.messages first)
              (setCurrentSessionId (Some (Chat.id first)) st')
        | [] => setMessages [] (setCurrentSessionId None st')
        end
      else st'
  | None => st'
  end.

(** "Clear current chat messages but keep session" *)
Definition refreshChat (st : App) : App :=
  setAttributionShown false (setMessages [] st).

Section Handlers.

Context {collation : Collation}.

(** "Toggle pin/unpin a chat session" *)
Definition togglePinChat (id : string) (st : App) : App :=
  let updatedChats :=
    map (fun chat =>
           if (Chat.id chat =? id)%string
           then Chat.with_pinned chat (negb (Chat.pinned chat))
           else chat)
        (chatHistory st) in
  let updatedChats := sortChats updatedChats in
  setChatHistory updatedChats (setItem updatedChats st).

(** "Start renaming a chat session" *)
Definition startRenaming (id : string) (currentName : string) (st : App)
  : App :=
  setRenameText currentName (setEditingChatId (Some id) st).

(** "Save renamed chat name" *)
Definition saveRename (id : string) (st : App) : App :=
  if negb (nonEmpty (trim (renameText st))) then st
  else
    let updatedChats :=
      map (fun chat =>
             if (Chat.id chat =? id)%string
             then Chat.with_name chat (trim (renameText st))
             else chat)
          (chatHistory st) in
    setEditingChatId None
      (setChatHistory updatedChats (setItem updatedChats st)).

(** "Handle key press in rename input" *)
Definition handleRenameKey (key : string) (id : string) (st : App) : App :=
  if (key =? "Enter")%string then saveRename id st
  else if (key =? "Escape")%string then setEditingChatId None st
  else st.

(** "Export all chats as JSON file".  The module imports its endpoint
    address under the name [URL] ([import URL from './assets/constants']),
    which hides the global [URL] in the whole module: the handler
    serialises the list, builds the blob, and [URL.createObjectURL(blob)]
    then calls a method that the address does not have.  The handler
    throws there: no document is offered, and the state is untouched. *)
Definition exportChats (st : App) : completion (list Chat.t) :=
  let dataStr := chatHistory st in
  Throw "URL.createObjectURL is not a function".

(** What [JSON.parse(event.target.result)] gives for the file read: a
    [SyntaxError], or the parsed value.  An array is read as an array of
    session objects, the shape of the stored document; the callback
    looks at the [id] and [pinned] of its elements only. *)
Inductive Imported : Type :=
| ImportedArray (items : list Chat.t)
| ImportedNull
| ImportedBool (b : bool)
| ImportedNumber (n : float)
| ImportedString (s : string)
| ImportedObject (members : list (string * json)).

Inductive Parse : Type :=
| SyntaxError (message : string)
| Parsed (imported : Imported).

(** The [forEach] of [importChats], on the copy [merged] of the list. *)
Definition mergeChat (merged : list Chat.t) (impChat : Chat.t) : list Chat.t :=
  match findChat (Chat.id impChat) merged with
  | Some _ => merged
  | None => merged ++ [impChat]
  end.

Definition mergeChats (chatHistory imported : list Chat.t) : list Chat.t :=
  fold_left mergeChat imported chatHistory.

(** [Array.isArray(imported)] and the elements of the array *)
Definition isArray (imported : Imported) : bool :=
  match imported with
  | ImportedArray _ => true
  | _ => false
  end.

Definition elements (imported : Imported) : list Chat.t :=
  match imported with
  | ImportedArray items => items
  | _ => []
  end.

(** The body of the [try] of [reader.onload]: the merged and sorted
    list, or the exception. *)
Definition importTry (parse : Parse) (st : App) : completion (list Chat.t) :=
  match parse with
  | SyntaxError message => Throw message
  | Parsed imported =>
      if negb (isArray imported) then Throw "Invalid format"
      else Normal (sortChats (mergeChats (chatHistory st) (elements imported)))
  end.

(** [reader.onload], the callback that the reader runs once the file
    is read, on the content of the file.  The list merged into is the
    [chatHistory] of the render in which the file was chosen; operations
    are taken one at a time here, so it is the list of [st]. *)
Definition onload (parse : Parse) (st : App) : App :=
  match importTry parse st with
  | Normal merged => setChatHistory merged (setItem merged st)
  | Throw message => alert ("Failed to import chats: " ++ message) st
  end.

(** "Import chats JSON and merge avoiding duplicates", the change
    handler of the file input, up to its return.  Without a file it
    returns at once.  With a file it creates the reader, sets
    [reader.onload] and calls [reader.readAsText(file)], which returns
    before anything is read: the state is as it was, and the load event
    of the file is pending. *)
Definition importChatsStart (file : option Parse) (st : App)
  : App * option Parse :=
  match file with
  | None => (st, None)
  | Some content => (st, Some content)
  end.

(** An import taken as one step: the change handler for a file with the
    given content, then the load event of its reader. *)
Definition importChats (parse : Parse) (st : App) : App :=
  match importChatsStart (Some parse) st with
  | (st, Some content) => onload content st
  | (st, None) => st
  end.

End Handlers.

(** "Filter chats by search term, case-insensitive" *)
Definition toLowerCaseUnit (c : ascii) : ascii :=
  let n := nat_of_ascii c in
  if ((65 <=? n)%nat && (n <=? 90)%nat)
     || ((192 <=? n)%nat && (n <=? 222)%nat && negb (n =? 215)%nat)
  then ascii_of_nat (n + 32) else c.

Fixpoint toLowerCase (s : string) : string :=
  match s with
  | EmptyString => EmptyString
  | String c s' => String (toLowerCaseUnit c) (toLowerCase s')
  end.

Definition filteredChats (st : App) : list Chat.t :=
  filter (fun chat =>
            includes (toLowerCase (searchTerm st))
                     (toLowerCase (Chat.name chat)))
         (chatHistory st).

(** ** The conversation controller *)

(** [question.trim().split(' ').slice(0, 6).join(' ')] *)
Definition shortName (question : string) : string :=
  join " " (firstn 6 (split " " (trim question))).

(** [rawReply.split("* ").map(line => line.trim())
            .filter(line => line.length > 0)] *)
Definition botLines (rawReply : string) : list string :=
  filter nonEmpty (map trim (split "* " rawReply)).

(** The links of an optional chain: [?.key] and [?.[0]]. *)
Inductive Accessor : Type :=
| Key (key : string)
| Index0.

Definition read (accessor : Accessor) (base : value) : completion value :=
  match accessor with
  | Key key => get base key
  | Index0 => get0 base
  end.

(** [base?.a1?.a2 ... ?.an] *)
Fixpoint optionalChainAll (path : list Accessor) (base : value)
  : completion value :=
  match path with
  | [] => Normal base
  | accessor :: rest =>
      optionalChain base (read accessor) (optionalChainAll rest)
  end.

(** [candidates?.[0]?.content?.parts?.[0]?.text], to be read from [data] *)
Definition replyPath : list Accessor :=
  [Key "candidates"; Index0; Key "content"; Key "parts"; Index0; Key "text"].

(** [data?.candidates?.[0]?.content?.parts?.[0]?.text] *)
Definition replyText (data : json) : completion value :=
  optionalChainAll replyPath (Some data).

(** [... || "No response"] *)
Definition rawReply (data : json) : completion value :=
  text <- replyText data ;;
  Normal (or text (Some (JString "No response"))).

(** [rawReply.split(...)] is a method call: only a string has the
    method. *)
Definition splitReply (rawReply : value) : completion (list string) :=
  match rawReply with
  | Some (JString s) => Normal (botLines s)
  | _ => Throw "rawReply.split is not a function"
  end.

(** How the request ends: [fetch] rejects, [response.json()] rejects, or
    the body parses to [data]. *)
Inductive Outcome : Type :=
| FetchFailed (message : string)
| BodyInvalid (message : string)
| Body (data : json).

(** The body of the [try] of [askQuestion] after the two [await]. *)
Definition replyTry (outcome : Outcome) : completion (list string) :=
  match outcome with
  | FetchFailed message => Throw message
  | BodyInvalid message => Throw message
  | Body data => raw <- rawReply data ;; splitReply raw
  end.

(** "Send question and handle bot reply", up to the first [await]:
    [now] is [new Date().toISOString()]. *)
Definition askQuestion (now : string) (st : App) : App :=
  if negb (nonEmpty (trim (question st))) then st
  else
    let userMessage := mkMessage user (Text (question st)) now in
    let st1 := setMessages (messages st ++ [userMessage]) st in
    let st2 :=
      match currentSessionId st with
      | Some current =>
          match findChat current (chatHistory st) with
          | Some currentChat =>
              if (Chat.name currentChat =? "")%string
                 || (Chat.name currentChat =? "New Chat")%string
              then
                let updatedChats :=
                  map (fun chat =>
                         if (Chat.id chat =? current)%string
                         then Chat.with_name chat (shortName (question st))
                         else chat)
                      (chatHistory st) in
                setItem updatedChats (setChatHistory updatedChats st1)
              else st1
          | None => st1
          end
      | None => st1
      end in
    setIsTyping true st2.

(** The rest of [askQuestion], when the request has ended. *)
Definition askQuestionSettled (outcome : Outcome) (now : string) (st : App)
  : App :=
  let reply :=
    match replyTry outcome with
    | Normal lines => mkMessage bot (Lines lines) now
    | Throw _ => mkMessage bot (Lines ["Error: Could not fetch response."]) now
    end in
  setQuestion "" (setIsTyping false (setMessages (messages st ++ [reply]) st)).

(** ** Operations and their sequences

    An operation is a handler, the callback it leaves behind if any,
    and the render they cause. *)

Inductive Operation : Type :=
| Create (now : N)
| Load (id : string)
| Delete (id : string)
| Refresh
| TogglePin (id : string)
| Rename (id newName : string)
| Send (text now : string)
| Receive (outcome : Outcome) (now : string)
| Import (parse : Parse).

Section Operations.

Context {collation : Collation}.

Definition handler (op : Operation) (st : App) : App :=
  match op with
  | Create now => createNewSession now st
  | Load id => loadSession id st
  | Delete id => deleteSession id st
  | Refresh => refreshChat st
  | TogglePin id => togglePinChat id st
  | Rename id newName => saveRename id (setRenameText newName st)
  | Send text now => askQuestion now (setQuestion text st)
  | Receive outcome now => askQuestionSettled outcome now st
  | Import parse => fst (importChatsStart (Some parse) st)
  end.

(** What runs after the handler has returned, before the next
    operation: the load event of the reader of an import.  (The reply
    to a question is an operation of its own, [Receive].) *)
Definition callback (op : Operation) (st : App) : App :=
  match op with
  | Import parse => onload parse st
  | _ => st
  end.

Definition perform (op : Operation) (st : App) : App :=
  commit (callback op (handler op st)).

Definition run (ops : list Operation) (st : App) : App :=
  fold_left (fun st op => perform op st) ops st.

End Operations.

(** * The vocabulary of the properties *)

(** ** Order *)

(** [a] may stand before [b]: the comparator does not ask for [b] first. *)
Definition mayPrecede {A : Type} (compareFn : A -> A -> Z) (a b : A) : Prop :=
  (compareFn a b <= 0)%Z.

(** The order of C1: no unpinned session stands before a pinned one,
    and of two sessions with the same pinned flag the one standing first
    has the id that collates last or equal. *)
Definition pinnedThenNewest {collation : Collation}
  (chats : list Chat.t) : Prop :=
  forall i j a b,
    i < j -> nth_error chats i = Some a -> nth_error chats j = Some b ->
    (Chat.pinned b = true -> Chat.pinned a = true) /\
    (Chat.pinned a = Chat.pinned b ->
     (localeCompare (Chat.id b) (Chat.id a) <= 0)%Z).

(** [{ ...chat, pinned: !chat.pinned }] on the sessions with the id *)
Definition flipPin (id : string) (chat : Chat.t) : Chat.t :=
  if (Chat.id chat =? id)%string
  then Chat.with_pinned chat (negb (Chat.pinned chat))
  else chat.

(** [{ ...chat, name: renameText.trim() }] on the sessions with the id *)
Definition renamed (id newName : string) (chat : Chat.t) : Chat.t :=
  if (Chat.id chat =? id)%string
  then Chat.with_name chat (trim newName)
  else chat.

(** The number a decimal numeral stands for, most significant digit
    first. *)
Definition numeral (d : Decimal.uint) : N :=
  DecimalPos.Unsigned.of_lu (Decimal.rev d).

(** ** Persistence *)

(** Between [before] and [after] the store was written once, with the
    list that [after] holds in memory. *)
Definition wroteItsList (before after : App) : Prop :=
  localStorage after = chatHistory after :: localStorage before.


(** ** Import *)

(** The ids of a list of sessions; whether a list holds an id; the
    sessions of a document whose id a list does not hold. *)
Definition ids (chats : list Chat.t) : list string := map Chat.id chats.

Definition present (id : string) (chats : list Chat.t) : bool :=
  existsb (fun chat => (Chat.id chat =? id)%string) chats.

Definition newSessions (chatHistory imported : list Chat.t) : list Chat.t :=
  filter (fun impChat => negb (present (Chat.id impChat) chatHistory)) imported.


(** ** Words and white space *)

(** A word: a string that is not empty and holds no white space. *)
Fixpoint noWhiteSpace (s : string) : bool :=
  match s with
  | EmptyString => true
  | String c s' => negb (isWhiteSpace c) && noWhiteSpace s'
  end.

Definition isWord (w : string) : bool := nonEmpty w && noWhiteSpace w.

(** The words of a text, as the specification speaks of them: its
    maximal runs of code units that are not white space. *)
Fixpoint words_from (cur : string) (s : string) : list string :=
  match s with
  | EmptyString => if nonEmpty cur then [cur] else []
  | String c s' =>
      if isWhiteSpace c
      then (if nonEmpty cur then cur :: words_from "" s' else words_from "" s')
      else words_from (cur ++ String c "") s'
  end.

Definition words (s : string) : list string := words_from "" s.

(** The name C8 states: the first six words of the trimmed text. *)
Definition firstSixWords (text : string) : string :=
  join " " (firstn 6 (words (trim text))).

(** C8 as stated: after the question is sent the open session has the
    first six words of the text for name. *)
Definition namedByFirstSixWords {collation : Collation}
  (st : App) (text now : string) : Prop :=
  forall chat,
    In chat (chatHistory (perform (Send text now) st)) ->
    isCurrent (currentSessionId st) chat = true ->
    Chat.name chat = firstSixWords text.

(** Does the string start, does it end, with a code unit that is not
    white space? *)
Definition startsBlack (s : string) : bool :=
  match s with
  | EmptyString => false
  | String c _ => negb (isWhiteSpace c)
  end.

Fixpoint endsBlack (s : string) : bool :=
  match s with
  | EmptyString => false
  | String c EmptyString => negb (isWhiteSpace c)
  | String _ s' => endsBlack s'
  end.

(** ** Further vocabulary: the session list as a whole *)

(** No two sessions of the list have the same id. *)
Definition uniqueIds (chats : list Chat.t) : Prop := NoDup (ids chats).

(** The save effect on the list: the sessions with the id [current]
    take the messages shown. *)
Definition withMessages (current : string) (messages : list Message)
  (chat : Chat.t) : Chat.t :=
  if (Chat.id chat =? current)%string
  then Chat.with_messages chat messages
  else chat.

(** The messages shown are those of the active session: when a session
    is active, the list holds a session with its id, and every session
    with that id holds the messages shown. *)
Definition showsActiveSession (st : App) : Prop :=
  match currentSessionId st with
  | None => True
  | Some current =>
      nonEmpty current = true ->
      present current (chatHistory st) = true /\
      forall chat, In chat (chatHistory st) -> Chat.id chat = current ->
                   Chat.messages chat = messages st
  end.

(** [s] without its first [n] code units. *)
Fixpoint drop (n : nat) (s : string) : string :=
  match n, s with
  | O, _ => s
  | S n', String _ s' => drop n' s'
  | S _, EmptyString => EmptyString
  end.

(** No occurrence of the separator in [cur ++ s] starts within [cur]. *)
Definition startsNoSeparator (sep cur s : string) : Prop :=
  forall u v, cur = (u ++ v)%string -> v <> "" ->
              String.prefix sep (v ++ s) = false.

(** ** Sample sessions, states and responses *)

(** A session named by the user and a session that still has the
    placeholder name, each open in the component. *)
Definition greetings : Chat.t := Chat.mk "1700000000000" "Greetings" false [].

Definition greetingsOpen : App := mount [[greetings]].

Definition newChat : Chat.t := Chat.mk "1700000000002" "New Chat" false [].

Definition newChatOpen : App := mount [[newChat]].

(** Sessions of an import document: two with the same new id, one with
    the id of [greetings]. *)
Definition trip : Chat.t := Chat.mk "1700000000001" "Trip" false [].

Definition tripCopy : Chat.t := Chat.mk "1700000000001" "Trip (copy)" true [].

Definition greetingsRenamed : Chat.t :=
  Chat.mk "1700000000000" "Salutations" true [].

(** The fallback reply. *)
Definition noResponse : value := Some (JString "No response").

(** A response body of the expected shape around [text], one whose text
    is a single space, and the body the service sends with an error. *)
Definition body (text : json) : json :=
  JObject [("candidates",
            JArray [JObject [("content",
              JObject [("parts", JArray [JObject [("text", text)]])])]])].

Definition blankBody : json := body (JString " ").


(** * Properties *)

(** ** A collation to compute with: the order of the code units

    It is the order every locale gives to the ids that
    [createNewSession] makes, strings of decimal digits. *)

Definition codeUnitCompare (a b : string) : Z :=
  match String.compare a b with
  | Lt => (-1)%Z
  | Eq => 0%Z
  | Gt => 1%Z
  end.

Lemma ascii_compare_trans_le (a b c : ascii) :
  Ascii.compare a b <> Gt -> Ascii.compare b c <> Gt -> Ascii.compare a c <> Gt.
Proof.
  unfold Ascii.compare.
  rewrite !N.compare_le_iff. lia.
Qed.

Lemma ascii_compare_eq (a b : ascii) : Ascii.compare a b = Eq -> a = b.
Proof.
  unfold Ascii.compare. intros H. apply N.compare_eq in H.
  rewrite <- (ascii_N_embedding a), <- (ascii_N_embedding b). now rewrite H.
Qed.

Lemma ascii_compare_lt_trans (a b c : ascii) :
  Ascii.compare a b = Lt -> Ascii.compare b c <> Gt -> Ascii.compare a c = Lt.
Proof.
  unfold Ascii.compare.
  rewrite !N.compare_le_iff, !N.compare_lt_iff. lia.
Qed.

Lemma ascii_compare_le_lt_trans (a b c : ascii) :
  Ascii.compare a b <> Gt -> Ascii.compare b c = Lt -> Ascii.compare a c = Lt.
Proof.
  unfold Ascii.compare.
  rewrite !N.compare_le_iff, !N.compare_lt_iff. lia.
Qed.

Lemma string_compare_trans_le (a b c : string) :
  String.compare a b <> Gt -> String.compare b c <> Gt -> String.compare a c <> Gt.
Proof.
  revert b c. induction a as [|x a IH]; intros [|y b] [|z c]; simpl; try congruence.
  destruct (Ascii.compare x y) eqn:Hxy; try congruence;
    destruct (Ascii.compare y z) eqn:Hyz; try congruence; intros Hab Hbc.
  - apply ascii_compare_eq in Hxy, Hyz. subst.
    assert (Hzz : Ascii.compare z z = Eq) by (unfold Ascii.compare; apply N.compare_refl).
    rewrite Hzz. now apply (IH b c).
  - apply ascii_compare_eq in Hxy. subst. now rewrite Hyz.
  - apply ascii_compare_eq in Hyz. subst. now rewrite Hxy.
  - rewrite (ascii_compare_lt_trans x y z Hxy) by congruence. congruence.
Qed.

#[export, refine] Instance codeUnits : Collation :=
  {| localeCompare := codeUnitCompare |}.
Proof.
  - intros a b. unfold codeUnitCompare.
    rewrite (String.compare_antisym a b).
    destruct (String.compare b a); reflexivity.
  - intros a b c. unfold codeUnitCompare.
    pose proof (string_compare_trans_le a b c) as H.
    destruct (String.compare a b), (String.compare b c), (String.compare a c);
      try lia; intros _ _; exfalso; apply H; congruence.
Defined.

(** ** Ids and the clock

    An id is the clock reading printed in decimal.  Readings printed
    with the same number of digits are ordered as their ids are, code
    unit by code unit: the newer session has the id that collates
    last. *)

Lemma numeral_digit (d : Decimal.uint) :
  let p := (10 ^ DecimalPos.Unsigned.usize d)%N in
  numeral (D0 d) = numeral d /\
  numeral (D1 d) = (numeral d + 1 * p)%N /\
  numeral (D2 d) = (numeral d + 2 * p)%N /\
  numeral (D3 d) = (numeral d + 3 * p)%N /\
  numeral (D4 d) = (numeral d + 4 * p)%N /\
  numeral (D5 d) = (numeral d + 5 * p)%N /\
  numeral (D6 d) = (numeral d + 6 * p)%N /\
  numeral (D7 d) = (numeral d + 7 * p)%N /\
  numeral (D8 d) = (numeral d + 8 * p)%N /\
  numeral (D9 d) = (numeral d + 9 * p)%N.
Proof.
  unfold numeral, Decimal.rev. simpl Decimal.revapp.
  rewrite !DecimalPos.Unsigned.of_lu_revapp. simpl DecimalPos.Unsigned.of_lu.
  fold (Decimal.rev d).
  repeat split; lia.
Qed.

Lemma numeral_bound (d : Decimal.uint) :
  (numeral d < 10 ^ DecimalPos.Unsigned.usize d)%N.
Proof.
  induction d; simpl DecimalPos.Unsigned.usize; rewrite ?N.pow_succ_r';
    [unfold numeral; simpl; lia | ..];
    destruct (numeral_digit d) as (H0 & H1 & H2 & H3 & H4 & H5 & H6 & H7 & H8 & H9);
    rewrite ?H0, ?H1, ?H2, ?H3, ?H4, ?H5, ?H6, ?H7, ?H8, ?H9; lia.
Qed.

Lemma compare_add_r (a b c : N) : ((a + c) ?= (b + c))%N = (a ?= b)%N.
Proof.
  destruct (N.compare_spec a b) as [H | H | H].
  - subst. apply N.compare_refl.
  - apply N.compare_lt_iff. lia.
  - apply N.compare_gt_iff. lia.
Qed.

Lemma string_of_uint_compare (d e : Decimal.uint) :
  DecimalPos.Unsigned.usize d = DecimalPos.Unsigned.usize e ->
  String.compare (NilEmpty.string_of_uint d) (NilEmpty.string_of_uint e) =
  (numeral d ?= numeral e)%N.
Proof.
  revert e. induction d; destruct e; simpl DecimalPos.Unsigned.usize; intros Hsize;
    try (exfalso; lia);
    try reflexivity;
    assert (Hsize' : DecimalPos.Unsigned.usize d = DecimalPos.Unsigned.usize e) by lia;
    pose proof (numeral_bound d) as Bd; pose proof (numeral_bound e) as Be;
    destruct (numeral_digit d) as (D0 & D1 & D2 & D3 & D4 & D5 & D6 & D7 & D8 & D9);
    destruct (numeral_digit e) as (E0 & E1 & E2 & E3 & E4 & E5 & E6 & E7 & E8 & E9);
    rewrite ?D0, ?D1, ?D2, ?D3, ?D4, ?D5, ?D6, ?D7, ?D8, ?D9;
    rewrite ?E0, ?E1, ?E2, ?E3, ?E4, ?E5, ?E6, ?E7, ?E8, ?E9;
    rewrite <- Hsize' in *;
    remember (10 ^ DecimalPos.Unsigned.usize d)%N as p;
    cbn [NilEmpty.string_of_uint String.compare];
    match goal with
    | |- context [Ascii.compare ?a ?b] =>
        let r := eval vm_compute in (Ascii.compare a b) in
        change (Ascii.compare a b) with r
    end;
    cbv iota;
    first
      [ rewrite ?compare_add_r; now apply IHd
      | symmetry; apply N.compare_lt_iff; lia
      | symmetry; apply N.compare_gt_iff; lia ].
Qed.

Lemma string_of_uint_length (d : Decimal.uint) :
  String.length (NilEmpty.string_of_uint d) = N.to_nat (DecimalPos.Unsigned.usize d).
Proof.
  induction d; simpl DecimalPos.Unsigned.usize; rewrite ?N2Nat.inj_succ; simpl;
    congruence.
Qed.

Lemma toString_numeral (now : N) :
  toString now = NilEmpty.string_of_uint (N.to_uint now) /\
  numeral (N.to_uint now) = now.
Proof.
  split.
  - unfold toString, NilZero.string_of_uint.
    destruct now as [|p]; [reflexivity|]. simpl N.to_uint.
    pose proof (DecimalPos.Unsigned.to_uint_nonnil p) as H.
    destruct (Pos.to_uint p); [contradiction | reflexivity..].
  - unfold numeral. rewrite <- DecimalPos.Unsigned.of_uint_alt.
    apply DecimalN.Unsigned.of_to.
Qed.

(** Ids of the same length are ordered, code unit by code unit, as the
    clock readings they print. *)
Lemma toString_compare (now1 now2 : N) :
  String.length (toString now1) = String.length (toString now2) ->
  String.compare (toString now1) (toString now2) = (now1 ?= now2)%N.
Proof.
  destruct (toString_numeral now1) as [S1 V1].
  destruct (toString_numeral now2) as [S2 V2].
  rewrite S1, S2, !string_of_uint_length. intros H.
  rewrite string_of_uint_compare by lia.
  now rewrite V1, V2.
Qed.

Lemma nzhead_not_D0 (u d : Decimal.uint) : Decimal.nzhead u <> D0 d.
Proof. induction u; simpl; try discriminate. exact IHu. Qed.

Lemma unorm_leading_zero (d : Decimal.uint) :
  Decimal.unorm (D0 d) = D0 d -> d = Nil.
Proof.
  rewrite DecimalFacts.unorm_D0. unfold Decimal.unorm.
  destruct (Decimal.nzhead d) eqn:E; intros H;
    try (injection H as <-; reflexivity);
    try discriminate.
  exfalso. rewrite <- E in H. exact (nzhead_not_D0 d d H).
Qed.

(** A numeral printed for a positive number is at least the power of
    ten of its length less one. *)
Lemma to_uint_lower_bound (now : N) :
  (0 < now)%N ->
  (10 ^ (DecimalPos.Unsigned.usize (N.to_uint now)) <= 10 * now)%N.
Proof.
  intros Hpos.
  destruct (toString_numeral now) as [_ V].
  assert (U : Decimal.unorm (N.to_uint now) = N.to_uint now).
  { rewrite <- (DecimalN.Unsigned.to_of (N.to_uint now)).
    now rewrite DecimalN.Unsigned.of_to. }
  destruct (N.to_uint now) as [|d|d|d|d|d|d|d|d|d|d] eqn:E;
    simpl DecimalPos.Unsigned.usize; rewrite ?N.pow_succ_r';
    try (destruct (numeral_digit d)
           as (H0 & H1 & H2 & H3 & H4 & H5 & H6 & H7 & H8 & H9);
         rewrite <- V, ?H1, ?H2, ?H3, ?H4, ?H5, ?H6, ?H7, ?H8, ?H9; lia).
  - rewrite <- V in Hpos. unfold numeral in Hpos. simpl in Hpos. lia.
  - apply unorm_leading_zero in U. subst d.
    rewrite <- V in Hpos. unfold numeral in Hpos. simpl in Hpos. lia.
Qed.

(** From 2001-09-09 to 2286-11-20 the clock reads thirteen digits. *)
Lemma toString_length_13 (now : N) :
  (10 ^ 12 <= now < 10 ^ 13)%N -> String.length (toString now) = 13.
Proof.
  intros [Hlo Hhi].
  destruct (toString_numeral now) as [S V].
  rewrite S, string_of_uint_length.
  pose proof (numeral_bound (N.to_uint now)) as Hub. rewrite V in Hub.
  assert (Hpos : (0 < now)%N) by (change (10 ^ 12)%N with 1000000000000%N in Hlo; lia).
  pose proof (to_uint_lower_bound now Hpos) as Hlb.
  set (k := DecimalPos.Unsigned.usize (N.to_uint now)) in *.
  assert (H12 : (12 < k)%N).
  { apply (N.pow_lt_mono_r_iff 10); [lia|]. lia. }
  assert (H14 : (k < 14)%N).
  { apply (N.pow_lt_mono_r_iff 10); [lia|].
    change (10 ^ 14)%N with (10 * 10 ^ 13)%N. lia. }
  assert (Hk : k = 13%N) by lia.
  now rewrite Hk.
Qed.

Lemma newer_id_collates_last (now1 now2 : N) :
  (10 ^ 12 <= now1)%N -> (now1 < now2)%N -> (now2 < 10 ^ 13)%N ->
  (codeUnitCompare (toString now1) (toString now2) < 0)%Z.
Proof.
  intros Hlo Hlt Hhi. unfold codeUnitCompare.
  rewrite toString_compare.
  - apply N.compare_lt_iff in Hlt. now rewrite Hlt.
  - rewrite !toString_length_13; [reflexivity | lia..].
Qed.

(** Of two sessions with the same pinned flag, created at different
    readings of the clock, the comparator puts the newer first. *)
Lemma newer_session_sorts_first (now1 now2 : N) (a b : Chat.t) :
  Chat.id a = toString now1 -> Chat.id b = toString now2 ->
  Chat.pinned a = Chat.pinned b ->
  (10 ^ 12 <= now1)%N -> (now1 < now2)%N -> (now2 < 10 ^ 13)%N ->
  (compareChats b a < 0)%Z.
Proof.
  intros Ha Hb Hp Hlo Hlt Hhi. unfold compareChats.
  rewrite Hp, Bool.eqb_reflx, Ha, Hb.
  now apply newer_id_collates_last.
Qed.

(** ** Sorting *)

Section SortFacts.

Context {A : Type} (compareFn : A -> A -> Z).

Lemma insert_Permutation (x : A) (l : list A) :
  Permutation (insert compareFn x l) (x :: l).
Proof.
  induction l as [|y l IH]; simpl.
  - apply Permutation_refl.
  - destruct (compareFn x y <=? 0)%Z.
    + apply Permutation_refl.
    + eapply Permutation_trans.
      * apply perm_skip, IH.
      * apply perm_swap.
Qed.

Lemma sort_Permutation (l : list A) : Permutation (sort compareFn l) l.
Proof.
  induction l as [|x l IH]; simpl.
  - apply perm_nil.
  - eapply Permutation_trans.
    + apply insert_Permutation.
    + apply perm_skip, IH.
Qed.

Lemma sort_length (l : list A) : List.length (sort compareFn l) = List.length l.
Proof. apply Permutation_length, sort_Permutation. Qed.

Hypothesis compareFn_total :
  forall a b, (0 < compareFn a b)%Z -> (compareFn b a <= 0)%Z.
Hypothesis compareFn_trans :
  forall a b c,
    (compareFn a b <= 0)%Z -> (compareFn b c <= 0)%Z -> (compareFn a c <= 0)%Z.

Lemma insert_StronglySorted (x : A) (l : list A) :
  StronglySorted (mayPrecede compareFn) l -> StronglySorted (mayPrecede compareFn) (insert compareFn x l).
Proof.
  induction 1 as [|y l Hl IH Hy]; simpl.
  - constructor; constructor.
  - destruct (compareFn x y <=? 0)%Z eqn:Hxy.
    + apply Z.leb_le in Hxy.
      constructor.
      * now constructor.
      * constructor; [exact Hxy|].
        eapply Forall_impl; [|exact Hy].
        intros z Hz. now apply (compareFn_trans x y z).
    + apply Z.leb_gt in Hxy.
      constructor; [exact IH|].
      eapply Permutation_Forall.
      * apply Permutation_sym, insert_Permutation.
      * constructor; [|exact Hy].
        now apply compareFn_total.
Qed.

Lemma sort_StronglySorted (l : list A) :
  StronglySorted (mayPrecede compareFn) (sort compareFn l).
Proof.
  induction l as [|x l IH]; simpl.
  - constructor.
  - now apply insert_StronglySorted.
Qed.

End SortFacts.

Lemma StronglySorted_nth_error {A : Type} (R : A -> A -> Prop) (l : list A) :
  StronglySorted R l ->
  forall i j a b,
    i < j -> nth_error l i = Some a -> nth_error l j = Some b -> R a b.
Proof.
  induction 1 as [|x l Hl IH Hx]; intros i j a b Hij Ha Hb.
  - destruct i; discriminate.
  - destruct j as [|j]; [lia|].
    destruct i as [|i]; simpl in *.
    + injection Ha as <-.
      rewrite Forall_forall in Hx. apply Hx.
      eapply nth_error_In; eassumption.
    + apply (IH i j); [lia|assumption..].
Qed.

(** ** The order of the session list *)

Section Order.

Context {collation : Collation}.

Lemma localeCompare_total (a b : string) :
  (0 < localeCompare a b)%Z -> (localeCompare b a <= 0)%Z.
Proof.
  pose proof (localeCompare_antisym a b). lia.
Qed.

Lemma compareChats_total (a b : Chat.t) :
  (0 < compareChats a b)%Z -> (compareChats b a <= 0)%Z.
Proof.
  unfold compareChats.
  destruct (Chat.pinned a), (Chat.pinned b); simpl; try lia;
    apply localeCompare_total.
Qed.

Lemma compareChats_trans (a b c : Chat.t) :
  (compareChats a b <= 0)%Z -> (compareChats b c <= 0)%Z ->
  (compareChats a c <= 0)%Z.
Proof.
  unfold compareChats.
  destruct (Chat.pinned a), (Chat.pinned b), (Chat.pinned c); simpl; try lia;
    intros Hba Hcb; exact (localeCompare_trans _ _ _ Hcb Hba).
Qed.

Lemma mayPrecede_compareChats (a b : Chat.t) :
  mayPrecede compareChats a b ->
  (Chat.pinned b = true -> Chat.pinned a = true) /\
  (Chat.pinned a = Chat.pinned b ->
   (localeCompare (Chat.id b) (Chat.id a) <= 0)%Z).
Proof.
  unfold mayPrecede, compareChats.
  destruct (Chat.pinned a), (Chat.pinned b); simpl; intros H; split;
    auto; try discriminate; lia.
Qed.

Lemma sortChats_pinnedThenNewest (chats : list Chat.t) :
  pinnedThenNewest (sortChats chats).
Proof.
  intros i j a b Hij Ha Hb.
  apply mayPrecede_compareChats.
  eapply StronglySorted_nth_error; [|eassumption..].
  apply sort_StronglySorted.
  - apply compareChats_total.
  - apply compareChats_trans.
Qed.

Lemma includes_empty (s : string) : includes "" s = true.
Proof. destruct s; reflexivity. Qed.

Lemma filteredChats_empty_term (st : App) :
  filteredChats (setSearchTerm "" st) = chatHistory st.
Proof.
  unfold filteredChats. simpl.
  induction (chatHistory st) as [|chat chats IH]; simpl.
  - reflexivity.
  - rewrite includes_empty. now f_equal.
Qed.

(** C1. After [togglePinChat(id)] the session list, in memory, as
    persisted and as shown under an empty search term, holds the sessions
    of before with the pin of [id] flipped, every pinned session before
    every unpinned one and, among sessions of equal pinned state, in
    descending order of id; the list after an import that succeeded, in
    memory and as persisted, is in the same order. *)
Theorem togglePin_import_pinned_then_newest (st : App) :
  (forall id,
      let st' := togglePinChat id st in
      pinnedThenNewest (chatHistory st') /\
      getItem st' = chatHistory st' /\
      filteredChats (setSearchTerm "" st') = chatHistory st' /\
      Permutation (chatHistory st') (map (flipPin id) (chatHistory st))) /\
  (forall imported,
      let st' := importChats (Parsed (ImportedArray imported)) st in
      pinnedThenNewest (chatHistory st') /\
      getItem st' = chatHistory st' /\
      alerts st' = alerts st).
Proof.
  split.
  - intros id st'. subst st'. unfold togglePinChat. simpl.
    split; [|split; [|split]].
    + apply sortChats_pinnedThenNewest.
    + reflexivity.
    + apply (filteredChats_empty_term
               (setChatHistory _ (setItem _ st))).
    + apply sort_Permutation.
  - intros imported st'. subst st'.
    unfold importChats, importChatsStart, onload. simpl.
    split; [|split]; try reflexivity.
    apply sortChats_pinnedThenNewest.
Qed.

End Order.

(** ** Persistence *)

Section Persistence.

Context {collation : Collation}.

Lemma saveEffect_synced (st : App) :
  getItem st = chatHistory st ->
  getItem (saveEffect st) = chatHistory (saveEffect st).
Proof.
  unfold saveEffect. destruct (noSession (currentSessionId st)); auto.
Qed.

Lemma commit_synced (st : App) :
  getItem st = chatHistory st -> getItem (commit st) = chatHistory (commit st).
Proof.
  unfold commit. destruct (messagesChanged st); auto.
  intros H. now apply saveEffect_synced.
Qed.

Lemma handler_synced (op : Operation) (st : App) :
  getItem st = chatHistory st ->
  getItem (handler op st) = chatHistory (handler op st).
Proof.
  intros H. destruct op; simpl.
  - reflexivity.
  - unfold loadSession.
    destruct (findChat id (chatHistory st)) as [session|]; auto.
    destruct (isCurrent (currentSessionId st) session); auto.
  - unfold deleteSession.
    destruct (currentSessionId st) as [current|]; [|reflexivity].
    destruct (id =? current)%string; [|reflexivity].
    destruct (filter _ (chatHistory st)); reflexivity.
  - exact H.
  - reflexivity.
  - unfold saveRename. simpl.
    destruct (nonEmpty (trim newName)); simpl; auto.
  - unfold askQuestion. simpl.
    destruct (nonEmpty (trim text0)); simpl; auto.
    destruct (currentSessionId st) as [current|]; auto.
    destruct (findChat current (chatHistory st)) as [currentChat|]; auto.
    destruct ((Chat.name currentChat =? "")%string
              || (Chat.name currentChat =? "New Chat")%string); auto.
  - exact H.
  - exact H.
Qed.

Lemma callback_synced (op : Operation) (st : App) :
  getItem st = chatHistory st ->
  getItem (callback op st) = chatHistory (callback op st).
Proof.
  intros H. destruct op; simpl; auto.
  unfold onload. destruct (importTry parse st); simpl; auto.
Qed.

Lemma perform_synced (op : Operation) (st : App) :
  getItem st = chatHistory st ->
  getItem (perform op st) = chatHistory (perform op st).
Proof.
  intros H. unfold perform.
  now apply commit_synced, callback_synced, handler_synced.
Qed.

Lemma run_synced (ops : list Operation) (st : App) :
  getItem st = chatHistory st ->
  getItem (run ops st) = chatHistory (run ops st).
Proof.
  revert st. induction ops as [|op ops IH]; intros st H; simpl.
  - exact H.
  - apply IH. now apply perform_synced.
Qed.

Lemma mount_synced (stored : list (list Chat.t)) :
  getItem (mount stored) = chatHistory (mount stored).
Proof.
  unfold mount. apply commit_synced.
  unfold loadEffect. destruct (getItem (initial stored)) eqn:E; simpl.
  - unfold getItem in *. simpl in *. exact E.
  - unfold getItem in *. simpl in *. exact E.
Qed.


End Persistence.

Section PersistenceClaims.

Context {collation : Collation}.


End PersistenceClaims.


(** ** Import *)

Lemma findChat_present (id : string) (chats : list Chat.t) :
  present id chats = match findChat id chats with Some _ => true | None => false end.
Proof.
  unfold present, findChat.
  induction chats as [|chat chats IH]; simpl.
  - reflexivity.
  - destruct (Chat.id chat =? id)%string; simpl; auto.
Qed.

Lemma present_In (id : string) (chats : list Chat.t) :
  present id chats = true <-> In id (ids chats).
Proof.
  unfold present, ids. rewrite existsb_exists, in_map_iff.
  split; intros [chat [H1 H2]]; exists chat.
  - apply String.eqb_eq in H2. auto.
  - split; [assumption|]. now apply String.eqb_eq.
Qed.

Lemma present_app (id : string) (l1 l2 : list Chat.t) :
  present id (l1 ++ l2) = present id l1 || present id l2.
Proof. unfold present. apply existsb_app. Qed.

Lemma mergeChat_present (merged : list Chat.t) (impChat : Chat.t) :
  mergeChat merged impChat =
  if present (Chat.id impChat) merged then merged else merged ++ [impChat].
Proof.
  unfold mergeChat. rewrite findChat_present.
  destruct (findChat (Chat.id impChat) merged); reflexivity.
Qed.

Lemma newSessions_skip (chatHistory imported : list Chat.t) (impChat : Chat.t) :
  ~ In (Chat.id impChat) (ids imported) ->
  newSessions (chatHistory ++ [impChat]) imported =
  newSessions chatHistory imported.
Proof.
  unfold newSessions. intros Hnot.
  apply filter_ext_in. intros c Hc.
  rewrite present_app. simpl.
  destruct (Chat.id impChat =? Chat.id c)%string eqn:E.
  - apply String.eqb_eq in E. exfalso. apply Hnot.
    rewrite E. unfold ids. now apply in_map.
  - now rewrite !orb_false_r.
Qed.

(** The merge of a document with no repeated id: the sessions held,
    then the new sessions in the order of the document. *)
Lemma mergeChats_NoDup (imported chatHistory : list Chat.t) :
  NoDup (ids imported) ->
  mergeChats chatHistory imported = chatHistory ++ newSessions chatHistory imported.
Proof.
  unfold mergeChats.
  revert chatHistory.
  induction imported as [|impChat imported IH]; intros chatHistory Hnd; simpl.
  - now rewrite app_nil_r.
  - inversion Hnd as [|? ? Hnot Hnd']; subst.
    rewrite mergeChat_present.
    destruct (present (Chat.id impChat) chatHistory) eqn:E; simpl.
    + now apply IH.
    + rewrite IH by assumption.
      rewrite newSessions_skip by assumption.
      now rewrite <- app_assoc.
Qed.







(** The merge of a document that holds known ids only changes nothing. *)
Lemma mergeChats_all_present (imported chatHistory : list Chat.t) :
  (forall impChat, In impChat imported -> In (Chat.id impChat) (ids chatHistory)) ->
  mergeChats chatHistory imported = chatHistory.
Proof.
  unfold mergeChats.
  induction imported as [|impChat imported IH]; intros H; simpl.
  - reflexivity.
  - rewrite mergeChat_present.
    assert (E : present (Chat.id impChat) chatHistory = true).
    { apply present_In, H. now left. }
    rewrite E. apply IH. intros c Hc. apply H. now right.
Qed.

Lemma mergeChats_origin (imported chatHistory : list Chat.t) (chat : Chat.t) :
  In chat (mergeChats chatHistory imported) ->
  In chat chatHistory \/
  (In chat imported /\ present (Chat.id chat) chatHistory = false).
Proof.
  unfold mergeChats. revert chatHistory.
  induction imported as [|impChat imported IH]; intros chatHistory Hin; simpl in *.
  - now left.
  - apply IH in Hin. rewrite mergeChat_present in Hin.
    destruct (present (Chat.id impChat) chatHistory) eqn:E.
    + destruct Hin as [Hin | [Hin Hp]]; [now left | right; auto].
    + rewrite present_app in Hin. destruct Hin as [Hin | [Hin Hp]].
      * apply in_app_or in Hin. destruct Hin as [Hin | [<- | []]].
        -- now left.
        -- right. split; [now left | exact E].
      * apply orb_false_iff in Hp. destruct Hp as [Hp _].
        right. split; [now right | exact Hp].
Qed.

Section ImportClaims.

Context {collation : Collation}.

(** C3. A document that parses to a value that is not an array is
    refused: the alert "Failed to import chats: Invalid format" is shown
    and nothing else changes, neither the list in memory nor the store. *)
Theorem import_refuses_what_is_not_an_array (st : App) (imported : Imported) :
  isArray imported = false ->
  let st' := importChats (Parsed imported) st in
  st' = alert "Failed to import chats: Invalid format" st /\
  chatHistory st' = chatHistory st /\
  localStorage st' = localStorage st /\
  alerts st' = "Failed to import chats: Invalid format" :: alerts st.
Proof.
  intros H st'. subst st'.
  unfold importChats, importChatsStart, onload, importTry.
  rewrite H. simpl. repeat split.
Qed.


(** C5. An import of a document all of whose ids the store holds leaves
    the sessions as they are: the list becomes the list of before,
    sorted pinned first and then by descending id, a permutation of it,
    and that list is the one persisted. *)
Theorem import_of_known_ids_only_sorts (st : App) (imported : list Chat.t) :
  (forall impChat, In impChat imported ->
                   In (Chat.id impChat) (ids (chatHistory st))) ->
  let st' := importChats (Parsed (ImportedArray imported)) st in
  chatHistory st' = sortChats (chatHistory st) /\
  Permutation (chatHistory st') (chatHistory st) /\
  (forall chat, In chat (chatHistory st') <-> In chat (chatHistory st)) /\
  pinnedThenNewest (chatHistory st') /\
  getItem st' = chatHistory st'.
Proof.
  intros H st'.
  assert (E : chatHistory st' = sortChats (chatHistory st)).
  { subst st'. unfold importChats, importChatsStart, onload. simpl.
    now rewrite mergeChats_all_present. }
  assert (P : Permutation (chatHistory st') (chatHistory st)).
  { rewrite E. apply sort_Permutation. }
  split; [exact E|]. split; [exact P|]. split; [|split].
  - intros chat. split; apply Permutation_in; [exact P | now apply Permutation_sym].
  - rewrite E. apply sortChats_pinnedThenNewest.
  - reflexivity.
Qed.

End ImportClaims.

Lemma import_refuses_an_object :
  let imported := ImportedObject [("sessions", JArray [])] in
  let st' := importChats (Parsed imported) greetingsOpen in
  isArray imported = false /\
  st' = alert "Failed to import chats: Invalid format" greetingsOpen /\
  chatHistory st' = [greetings] /\
  localStorage st' = localStorage greetingsOpen /\
  alerts st' = ["Failed to import chats: Invalid format"].
Proof.
  split; [reflexivity|].
  apply (import_refuses_what_is_not_an_array
           greetingsOpen (ImportedObject [("sessions", JArray [])])).
  reflexivity.
Defined.



Lemma import_of_known_ids_only_sorts_witness :
  let imported := [greetingsRenamed] in
  let st' := importChats (Parsed (ImportedArray imported)) greetingsOpen in
  (forall impChat, In impChat imported ->
                   In (Chat.id impChat) (ids (chatHistory greetingsOpen))) /\
  chatHistory st' = [greetings] /\
  getItem st' = [greetings].
Proof.
  assert (H : forall impChat, In impChat [greetingsRenamed] ->
                In (Chat.id impChat) (ids (chatHistory greetingsOpen))).
  { intros impChat [<- | []]. simpl. now left. }
  split; [exact H|].
  pose proof (import_of_known_ids_only_sorts greetingsOpen [greetingsRenamed] H)
    as [E [_ [_ [_ G]]]].
  split; [exact E | exact G].
Defined.

(** ** Strings: trimming and splitting *)

Local Arguments String.prefix : simpl never.

Lemma trimStart_blank (s : string) : blank s = true -> trimStart s = "".
Proof.
  induction s as [|c s IH]; simpl; [reflexivity|].
  destruct (isWhiteSpace c); simpl; [exact IH | discriminate].
Qed.

Lemma trim_blank (s : string) : blank s = true -> trim s = "".
Proof. intros H. unfold trim. now rewrite trimStart_blank. Qed.

Lemma trimEnd_head (c : ascii) (s : string) :
  isWhiteSpace c = false -> nonEmpty (trimEnd (String c s)) = true.
Proof.
  intros H. simpl. destruct (trimEnd s); [now rewrite H | reflexivity].
Qed.

Lemma trim_not_blank (s : string) : blank s = false -> nonEmpty (trim s) = true.
Proof.
  unfold trim. induction s as [|c s IH]; simpl; [discriminate|].
  destruct (isWhiteSpace c) eqn:E; simpl.
  - exact IH.
  - intros _. now apply trimEnd_head.
Qed.

Lemma append_String_assoc (cur : string) (c : ascii) (s : string) :
  ((cur ++ String c "") ++ s)%string = (cur ++ String c s)%string.
Proof.
  induction cur as [|d cur IH]; simpl; [reflexivity | now rewrite IH].
Qed.

Lemma append_empty_r (s : string) : (s ++ "")%string = s.
Proof. induction s as [|c s IH]; simpl; [reflexivity | now rewrite IH]. Qed.

(** With no occurrence of the separator the split has one segment. *)
Lemma split_from_without_separator (sep : string) (s cur : string) :
  includes sep s = false -> split_from sep 0 cur s = [(cur ++ s)%string].
Proof.
  revert cur. induction s as [|c s IH]; intros cur H; simpl.
  - now rewrite append_empty_r.
  - simpl in H. apply orb_false_iff in H. destruct H as [Hp Hs].
    simpl in Hp. rewrite Hp.
    rewrite IH by exact Hs. now rewrite append_String_assoc.
Qed.

Lemma split_without_separator (sep s : string) :
  includes sep s = false -> split sep s = [s].
Proof. intros H. unfold split. now rewrite split_from_without_separator. Qed.

(** ** Bot replies *)

(** C6, amended.  The text of every bot reply is split on "* ", each
    segment trimmed and the empty ones dropped, whether or not it holds
    the delimiter, and the lines obtained are the text of the message
    appended; "* First point* Second point" gives "First point" and
    "Second point"; a reply without the delimiter gives its trimmed text
    as the single line, or no line at all when it is white space only. *)
Theorem bot_reply_is_split_into_lines :
  (forall reply,
      splitReply (Some (JString reply)) =
      Normal (filter nonEmpty (map trim (split "* " reply)))) /\
  (forall data reply now st,
      rawReply data = Normal (Some (JString reply)) ->
      messages (askQuestionSettled (Body data) now st) =
      messages st ++ [mkMessage bot (Lines (botLines reply)) now]) /\
  botLines "* First point* Second point" = ["First point"; "Second point"] /\
  (forall reply,
      includes "* " reply = false ->
      botLines reply = if blank reply then [] else [trim reply]).
Proof.
  split; [reflexivity|]. split; [|split; [reflexivity|]].
  - intros data reply now st H.
    unfold askQuestionSettled, replyTry. rewrite H. reflexivity.
  - intros reply H. unfold botLines.
    rewrite split_without_separator by exact H. simpl.
    destruct (blank reply) eqn:E.
    + now rewrite trim_blank.
    + now rewrite trim_not_blank.
Qed.

(** C6, as stated, fails for a reply of white space: it does not hold
    the delimiter and gives no line, not one. *)
Lemma blank_reply_gives_no_line :
  includes "* " " " = false /\
  rawReply blankBody = Normal (Some (JString " ")) /\
  botLines " " = [] /\
  messages (askQuestionSettled (Body blankBody) "2024-01-01T00:00:01.000Z"
              greetingsOpen) =
    [mkMessage bot (Lines []) "2024-01-01T00:00:01.000Z"] /\
  ~ (forall reply,
        includes "* " reply = false -> exists line, botLines reply = [line]).
Proof.
  repeat split.
  intros H. destruct (H " " eq_refl) as [line Hline].
  vm_compute in Hline. discriminate.
Qed.

(** ** The name taken from the first question *)

Lemma space_is_white_space (c : ascii) :
  isWhiteSpace c = false -> c <> " "%char.
Proof. intros H ->. discriminate. Qed.

Lemma prefix_space (c : ascii) (s : string) :
  isWhiteSpace c = false -> String.prefix " " (String c s) = false.
Proof.
  intros H.
  change (String.prefix " " (String c s))
    with (if ascii_dec " " c then String.prefix "" s else false).
  destruct (ascii_dec " " c) as [E|E]; [|reflexivity].
  symmetry in E. now apply space_is_white_space in H.
Qed.

Lemma split_from_word (w : string) (cur rest : string) :
  noWhiteSpace w = true ->
  split_from " " 0 cur (w ++ rest) = split_from " " 0 (cur ++ w) rest.
Proof.
  revert cur. induction w as [|c w IH]; intros cur H; simpl.
  - now rewrite append_empty_r.
  - simpl in H. apply andb_true_iff in H. destruct H as [Hc Hw].
    apply negb_true_iff in Hc.
    rewrite (prefix_space c (w ++ rest) Hc).
    rewrite IH by exact Hw. now rewrite append_String_assoc.
Qed.

Lemma split_from_space (cur rest : string) :
  split_from " " 0 cur (String " " rest) = cur :: split_from " " 0 "" rest.
Proof.
  simpl.
  change (String.prefix " " (String " " rest)) with (String.prefix "" rest).
  destruct rest; reflexivity.
Qed.

Lemma split_from_join (ws : list string) (w cur : string) :
  Forall (fun w => noWhiteSpace w = true) (w :: ws) ->
  split_from " " 0 cur (join " " (w :: ws)) = (cur ++ w)%string :: ws.
Proof.
  revert w cur. induction ws as [|w' ws IH]; intros w cur H.
  - inversion H; subst. simpl join.
    rewrite <- (append_empty_r w) at 1.
    now rewrite split_from_word.
  - inversion H as [|? ? Hw Hws]; subst.
    change (join " " (w :: w' :: ws))
      with (w ++ String " " (join " " (w' :: ws)))%string.
    rewrite split_from_word by exact Hw.
    rewrite split_from_space.
    now rewrite IH.
Qed.

Lemma words_from_word (w : string) (cur rest : string) :
  noWhiteSpace w = true ->
  words_from cur (w ++ rest) = words_from (cur ++ w) rest.
Proof.
  revert cur. induction w as [|c w IH]; intros cur H; simpl.
  - now rewrite append_empty_r.
  - simpl in H. apply andb_true_iff in H. destruct H as [Hc Hw].
    apply negb_true_iff in Hc. rewrite Hc.
    rewrite IH by exact Hw. now rewrite append_String_assoc.
Qed.

Lemma nonEmpty_append (cur w : string) :
  nonEmpty w = true -> nonEmpty (cur ++ w) = true.
Proof. destruct cur; simpl; auto. Qed.

Lemma words_from_space (cur rest : string) :
  words_from cur (String " " rest) =
  if nonEmpty cur then cur :: words_from "" rest else words_from "" rest.
Proof. reflexivity. Qed.

Lemma words_from_join (ws : list string) (w cur : string) :
  Forall (fun w => isWord w = true) (w :: ws) ->
  words_from cur (join " " (w :: ws)) = (cur ++ w)%string :: ws.
Proof.
  revert w cur. induction ws as [|w' ws IH]; intros w cur H.
  - inversion H as [|? ? Hw _]; subst.
    apply andb_true_iff in Hw. destruct Hw as [Hne Hw].
    simpl join. rewrite <- (append_empty_r w) at 1.
    rewrite words_from_word by exact Hw. simpl.
    now rewrite nonEmpty_append.
  - inversion H as [|? ? Hw Hws]; subst.
    apply andb_true_iff in Hw. destruct Hw as [Hne Hw].
    change (join " " (w :: w' :: ws))
      with (w ++ String " " (join " " (w' :: ws)))%string.
    rewrite words_from_word by exact Hw.
    rewrite words_from_space, nonEmpty_append by exact Hne.
    now rewrite IH.
Qed.

Lemma trimEnd_endsBlack (s : string) : endsBlack s = true -> trimEnd s = s.
Proof.
  induction s as [|c s IH]; [discriminate|].
  destruct s as [|d s].
  - simpl. intros H. apply negb_true_iff in H. now rewrite H.
  - intros H. change (endsBlack (String c (String d s)))
      with (endsBlack (String d s)) in H.
    specialize (IH H).
    change (trimEnd (String c (String d s)))
      with (match trimEnd (String d s) with
            | EmptyString =>
                if isWhiteSpace c then EmptyString else String c EmptyString
            | t => String c t
            end).
    now rewrite IH.
Qed.

Lemma endsBlack_append (a b : string) :
  nonEmpty b = true -> endsBlack (a ++ b) = endsBlack b.
Proof.
  intros H. induction a as [|c a IH]; [reflexivity|].
  simpl append.
  destruct (a ++ b)%string eqn:E.
  - destruct a; simpl in E; [subst b|]; discriminate.
  - exact IH.
Qed.

Lemma endsBlack_word (w : string) : isWord w = true -> endsBlack w = true.
Proof.
  unfold isWord. induction w as [|c w IH]; [discriminate|].
  simpl. intros H. apply andb_true_iff in H. destruct H as [Hc Hw].
  destruct w as [|d w]; [exact Hc|].
  apply IH. exact Hw.
Qed.

Lemma isWord_nonEmpty (w : string) : isWord w = true -> nonEmpty w = true.
Proof. unfold isWord. intros H. now apply andb_true_iff in H. Qed.

Lemma nonEmpty_join (w : string) (ws : list string) :
  nonEmpty w = true -> nonEmpty (join " " (w :: ws)) = true.
Proof.
  intros H. destruct ws; [exact H|].
  change (join " " (w :: s :: ws)) with (w ++ " " ++ join " " (s :: ws))%string.
  destruct w; [discriminate | reflexivity].
Qed.

Lemma endsBlack_join (ws : list string) (w : string) :
  Forall (fun w => isWord w = true) (w :: ws) ->
  endsBlack (join " " (w :: ws)) = true.
Proof.
  revert w. induction ws as [|w' ws IH]; intros w H.
  - inversion H; subst. now apply endsBlack_word.
  - inversion H as [|? ? Hw Hws]; subst.
    change (join " " (w :: w' :: ws))
      with (w ++ String " " (join " " (w' :: ws)))%string.
    rewrite endsBlack_append by reflexivity.
    assert (Hne : nonEmpty (join " " (w' :: ws)) = true).
    { apply nonEmpty_join, isWord_nonEmpty. now inversion Hws. }
    destruct (join " " (w' :: ws)) eqn:E; [discriminate|].
    change (endsBlack (String " " (String a s))) with (endsBlack (String a s)).
    rewrite <- E. now apply IH.
Qed.

Lemma trimStart_word (w rest : string) :
  isWord w = true -> trimStart (w ++ rest) = (w ++ rest)%string.
Proof.
  unfold isWord. destruct w as [|c w]; [discriminate|].
  simpl. intros H. apply andb_true_iff in H. destruct H as [Hc _].
  apply negb_true_iff in Hc. now rewrite Hc.
Qed.

Lemma trim_join (ws : list string) (w : string) :
  Forall (fun w => isWord w = true) (w :: ws) ->
  trim (join " " (w :: ws)) = join " " (w :: ws).
Proof.
  intros H. unfold trim.
  assert (Hs : trimStart (join " " (w :: ws)) = join " " (w :: ws)).
  { inversion H as [|? ? Hw _]; subst. destruct ws.
    - simpl join. rewrite <- (append_empty_r w). now apply trimStart_word.
    - change (join " " (w :: s :: ws))
        with (w ++ " " ++ join " " (s :: ws))%string.
      now apply trimStart_word. }
  rewrite Hs. now apply trimEnd_endsBlack, endsBlack_join.
Qed.

Lemma isWord_noWhiteSpace (ws : list string) :
  Forall (fun w => isWord w = true) ws ->
  Forall (fun w => noWhiteSpace w = true) ws.
Proof.
  apply Forall_impl. intros w H. unfold isWord in H.
  now apply andb_true_iff in H.
Qed.

(** On words set apart by single spaces the name is the first six of
    them, which is what the specification says of every text. *)
Lemma shortName_of_words (w : string) (ws : list string) :
  Forall (fun w => isWord w = true) (w :: ws) ->
  shortName (join " " (w :: ws)) = join " " (firstn 6 (w :: ws)) /\
  firstSixWords (join " " (w :: ws)) = join " " (firstn 6 (w :: ws)).
Proof.
  intros H. unfold shortName, firstSixWords, split, words.
  rewrite trim_join by exact H.
  rewrite split_from_join by now apply isWord_noWhiteSpace.
  rewrite words_from_join by exact H.
  split; reflexivity.
Qed.

(** C8, amended.  A question sent on a session whose name is empty or
    "New Chat" renames it, in memory and in the store, to the first six
    segments that single spaces delimit in the trimmed text, joined by
    spaces, and the render that follows keeps the name.  When the text
    is made of words set apart by single spaces these are its first six
    words; so "Hello world foo bar baz qux extra" gives
    "Hello world foo bar baz qux". *)
Theorem first_question_names_the_session :
  (forall st text now current currentChat,
      nonEmpty (trim text) = true ->
      currentSessionId st = Some current ->
      findChat current (chatHistory st) = Some currentChat ->
      Chat.name currentChat = "" \/ Chat.name currentChat = "New Chat" ->
      let rename := fun chat =>
        if (Chat.id chat =? current)%string
        then Chat.with_name chat (shortName text) else chat in
      let st' := askQuestion now (setQuestion text st) in
      chatHistory st' = map rename (chatHistory st) /\
      getItem st' = map rename (chatHistory st) /\
      map Chat.name (chatHistory (commit st')) =
        map Chat.name (map rename (chatHistory st)) /\
      getItem (commit st') = chatHistory (commit st')) /\
  (forall w ws,
      Forall (fun w => isWord w = true) (w :: ws) ->
      shortName (join " " (w :: ws)) = join " " (firstn 6 (w :: ws)) /\
      firstSixWords (join " " (w :: ws)) = join " " (firstn 6 (w :: ws))) /\
  shortName "Hello world foo bar baz qux extra" = "Hello world foo bar baz qux".
Proof.
  split; [|split; [exact shortName_of_words | reflexivity]].
  intros st text now current currentChat Htext Hcur Hfind Hname rename st'.
  assert (E : chatHistory st' = map rename (chatHistory st) /\
              getItem st' = map rename (chatHistory st) /\
              currentSessionId st' = Some current /\
              messagesChanged st' = true).
  { subst st'. unfold askQuestion. simpl.
    rewrite Htext, Hcur, Hfind. simpl.
    assert (Hn : (Chat.name currentChat =? "")%string
                 || (Chat.name currentChat =? "New Chat")%string = true).
    { destruct Hname as [-> | ->]; reflexivity. }
    rewrite Hn. simpl. repeat split. exact Hcur. }
  destruct E as [E1 [E2 [E3 E4]]].
  split; [exact E1|]. split; [exact E2|].
  unfold commit. rewrite E4. unfold saveEffect. simpl.
  destruct (noSession (currentSessionId st')); simpl.
  - rewrite E1. split; [reflexivity|].
    unfold getItem in *. simpl. rewrite <- E1. exact (eq_trans E2 (eq_sym E1)).
  - split; [|reflexivity].
    rewrite E1, !map_map. apply map_ext. intros chat.
    simpl. destruct (isCurrent (currentSessionId st') (rename chat)); reflexivity.
Qed.

(** The example of the claim, on the component. *)
Lemma first_question_names_the_session_witness :
  let text := "Hello world foo bar baz qux extra" in
  let now := "2024-01-01T00:00:00.000Z" in
  nonEmpty (trim text) = true /\
  currentSessionId newChatOpen = Some "1700000000002" /\
  findChat "1700000000002" (chatHistory newChatOpen) = Some newChat /\
  chatHistory (askQuestion now (setQuestion text newChatOpen)) =
    [Chat.mk "1700000000002" "Hello world foo bar baz qux" false []] /\
  map Chat.name (chatHistory (perform (Send text now) newChatOpen)) =
    ["Hello world foo bar baz qux"].
Proof.
  split; [reflexivity|]. split; [reflexivity|]. split; [reflexivity|].
  destruct first_question_names_the_session as [H _].
  destruct (H newChatOpen "Hello world foo bar baz qux extra"
              "2024-01-01T00:00:00.000Z" "1700000000002" newChat
              eq_refl eq_refl eq_refl (or_intror eq_refl))
    as [H1 [_ [H3 _]]].
  split; [exact H1 | exact H3].
Defined.

(** C8, as stated, fails when two spaces stand between words: the empty
    segment between them counts among the six, and five words are
    kept. *)
Lemma two_spaces_cost_a_word :
  let text := "Tell  me a joke about cats please" in
  let now := "2024-01-01T00:00:00.000Z" in
  shortName text = "Tell  me a joke about" /\
  firstSixWords text = "Tell me a joke about cats" /\
  map Chat.name (chatHistory (perform (Send text now) newChatOpen)) =
    ["Tell  me a joke about"] /\
  ~ namedByFirstSixWords newChatOpen text now.
Proof.
  split; [vm_compute; reflexivity|].
  split; [vm_compute; reflexivity|].
  split; [vm_compute; reflexivity|].
  intros H.
  pose proof (H (Chat.mk "1700000000002" "Tell  me a joke about" false
                   [mkMessage user (Text "Tell  me a joke about cats please")
                      "2024-01-01T00:00:00.000Z"])) as X.
  vm_compute in X.
  specialize (X (or_introl eq_refl) eq_refl). discriminate.
Qed.

(** ** What [trim] removes *)

Lemma trimStart_spec (s : string) :
  exists pre,
    blank pre = true /\ s = (pre ++ trimStart s)%string /\
    (trimStart s = "" \/ startsBlack (trimStart s) = true).
Proof.
  induction s as [|c s [pre [Hb [Hs Hh]]]].
  - exists "". repeat split. now left.
  - simpl. destruct (isWhiteSpace c) eqn:E.
    + exists (String c pre). simpl. rewrite E, Hb. repeat split.
      * now rewrite <- Hs.
      * exact Hh.
    + exists "". repeat split. right. simpl. now rewrite E.
Qed.

Lemma trimEnd_spec (s : string) :
  exists post,
    blank post = true /\ s = (trimEnd s ++ post)%string /\
    (trimEnd s = "" \/ endsBlack (trimEnd s) = true).
Proof.
  induction s as [|c s [post [Hb [Hs Hh]]]].
  - exists "". repeat split. now left.
  - simpl. destruct (trimEnd s) as [|d t] eqn:Et.
    + destruct (isWhiteSpace c) eqn:E.
      * exists (String c post). simpl. rewrite E, Hb. repeat split.
        -- now rewrite Hs.
        -- now left.
      * exists post. repeat split; [exact Hb | | ].
        -- simpl. now rewrite Hs.
        -- right. simpl. now rewrite E.
    + exists post. repeat split; [exact Hb | | ].
      * simpl. now rewrite Hs at 1.
      * right. destruct Hh as [Hh | Hh]; [discriminate | exact Hh].
Qed.

Lemma trimEnd_startsBlack (s : string) :
  startsBlack s = true -> startsBlack (trimEnd s) = true.
Proof.
  destruct s as [|c s]; [discriminate|].
  simpl. intros H. destruct (trimEnd s).
  - apply negb_true_iff in H. rewrite H. simpl. now rewrite H.
  - exact H.
Qed.

(** [trim] takes white space off both ends and nothing else, and what
    it leaves neither starts nor ends with white space. *)
Lemma trim_spec (s : string) :
  exists pre post,
    blank pre = true /\ blank post = true /\
    s = (pre ++ trim s ++ post)%string /\
    (trim s = "" \/
     (startsBlack (trim s) = true /\ endsBlack (trim s) = true)).
Proof.
  unfold trim.
  destruct (trimStart_spec s) as [pre [Hpre [Hs Hstart]]].
  destruct (trimEnd_spec (trimStart s)) as [post [Hpost [Ht Hend]]].
  exists pre, post. repeat split; try assumption.
  - now rewrite <- Ht.
  - destruct Hend as [Hend | Hend]; [now left|]. right.
    destruct Hstart as [Hstart | Hstart].
    + rewrite Hstart in Hend. discriminate.
    + split; [now apply trimEnd_startsBlack | exact Hend].
Qed.

(** ** Rename *)

Lemma saveRename_unless_blank (st : App) (id newName : string) :
  saveRename id (setRenameText newName st) =
  if blank newName then setRenameText newName st
  else
    let updatedChats := map (renamed id newName) (chatHistory st) in
    setEditingChatId None
      (setChatHistory updatedChats
         (setItem updatedChats (setRenameText newName st))).
Proof.
  unfold saveRename. simpl.
  destruct (blank newName) eqn:E.
  - now rewrite trim_blank.
  - now rewrite trim_not_blank.
Qed.

Lemma saveRename_names (st : App) (id newName : string) :
  blank newName = false ->
  let st' := saveRename id (setRenameText newName st) in
  (forall chat, In chat (chatHistory st') -> Chat.id chat = id ->
                Chat.name chat = trim newName) /\
  getItem st' = chatHistory st'.
Proof.
  intros H st'. subst st'. rewrite saveRename_unless_blank, H. simpl.
  split; [|reflexivity].
  intros chat Hin Hid.
  apply in_map_iff in Hin. destruct Hin as [c [Hc _]]. subst chat.
  unfold renamed in *.
  destruct (Chat.id c =? id)%string eqn:E; [reflexivity|].
  apply String.eqb_neq in E. contradiction.
Qed.

(** C7. A rename to a name that is empty or white space only is
    rejected: the list keeps every name and nothing is written.  A
    rename to any other name replaces the name of the session with the
    id and writes the list. *)
Theorem rename_rejects_blank_names (st : App) (id newName : string) :
  let st' := saveRename id (setRenameText newName st) in
  (blank newName = true ->
   chatHistory st' = chatHistory st /\
   localStorage st' = localStorage st /\
   getItem st' = getItem st) /\
  (blank newName = false ->
   chatHistory st' = map (renamed id newName) (chatHistory st) /\
   wroteItsList st st' /\
   (forall chat, In chat (chatHistory st') -> Chat.id chat = id ->
                 Chat.name chat = trim newName /\
                 nonEmpty (Chat.name chat) = true)).
Proof.
  intros st'. subst st'. rewrite saveRename_unless_blank.
  split; intros H; rewrite H.
  - repeat split.
  - simpl. split; [reflexivity|]. split; [reflexivity|].
    intros chat Hin Hid.
    destruct (saveRename_names st id newName H) as [Hname _].
    rewrite saveRename_unless_blank, H in Hname.
    rewrite (Hname chat Hin Hid).
    split; [reflexivity | now apply trim_not_blank].
Qed.

(** C9. An accepted rename stores the name typed without the white
    space at its ends, in memory and in the store: white space before
    and white space after it make up the rest of what was typed, and
    the name stored neither starts nor ends with white space. *)
Theorem accepted_rename_stores_trimmed_name (st : App) (id newName : string) :
  nonEmpty (trim newName) = true ->
  let st' := saveRename id (setRenameText newName st) in
  (forall chat, In chat (chatHistory st') -> Chat.id chat = id ->
                Chat.name chat = trim newName) /\
  getItem st' = chatHistory st' /\
  (exists pre post,
      blank pre = true /\ blank post = true /\
      newName = (pre ++ trim newName ++ post)%string) /\
  startsBlack (trim newName) = true /\
  endsBlack (trim newName) = true.
Proof.
  intros Hne st'.
  assert (Hb : blank newName = false).
  { destruct (blank newName) eqn:E; [|reflexivity].
    rewrite trim_blank in Hne by exact E. discriminate. }
  destruct (saveRename_names st id newName Hb) as [H1 H2].
  destruct (trim_spec newName) as [pre [post [Hpre [Hpost [Hs Hends]]]]].
  split; [exact H1|]. split; [exact H2|]. split.
  - exists pre, post. auto.
  - destruct Hends as [He | He]; [|exact He].
    rewrite He in Hne. discriminate.
Qed.

Lemma rename_rejects_blank_names_witness :
  let st := greetingsOpen in
  let id := "1700000000000" in
  blank "   " = true /\
  chatHistory (saveRename id (setRenameText "   " st)) = [greetings] /\
  localStorage (saveRename id (setRenameText "   " st)) = localStorage st /\
  blank "Plans" = false /\
  chatHistory (saveRename id (setRenameText "Plans" st)) =
    [Chat.mk "1700000000000" "Plans" false []] /\
  getItem (saveRename id (setRenameText "Plans" st)) =
    [Chat.mk "1700000000000" "Plans" false []].
Proof.
  destruct (rename_rejects_blank_names greetingsOpen "1700000000000" "   ")
    as [Hblank _].
  destruct (rename_rejects_blank_names greetingsOpen "1700000000000" "Plans")
    as [_ Hplans].
  destruct (Hblank eq_refl) as [H1 [H2 _]].
  destruct (Hplans eq_refl) as [H3 [H4 _]].
  split; [reflexivity|]. split; [exact H1|]. split; [exact H2|].
  split; [reflexivity|]. split; [exact H3|].
  unfold wroteItsList in H4. unfold getItem. rewrite H4. exact H3.
Defined.

Lemma accepted_rename_stores_trimmed_name_witness :
  let newName := "  Holiday plans  " in
  let st' := saveRename "1700000000000" (setRenameText newName greetingsOpen) in
  nonEmpty (trim newName) = true /\
  trim newName = "Holiday plans" /\
  chatHistory st' = [Chat.mk "1700000000000" "Holiday plans" false []] /\
  (forall chat, In chat (chatHistory st') -> Chat.id chat = "1700000000000" ->
                Chat.name chat = trim newName) /\
  getItem st' = chatHistory st'.
Proof.
  split; [reflexivity|]. split; [reflexivity|]. split; [reflexivity|].
  destruct (accepted_rename_stores_trimmed_name
              greetingsOpen "1700000000000" "  Holiday plans  " eq_refl)
    as [H1 [H2 _]].
  split; [exact H1 | exact H2].
Defined.

(** ** The reply read from the response *)







(** Pinning the older of two sessions brings it to the front. *)
Lemma togglePin_import_pinned_then_newest_witness :
  let st := mount [[trip; greetings]] in
  chatHistory (togglePinChat "1700000000000" st) =
    [Chat.with_pinned greetings true; trip] /\
  pinnedThenNewest (chatHistory (togglePinChat "1700000000000" st)) /\
  chatHistory
    (importChats (Parsed (ImportedArray [newChat; greetingsRenamed; tripCopy]))
       (togglePinChat "1700000000000" st)) =
    [Chat.with_pinned greetings true; newChat; trip] /\
  pinnedThenNewest
    (chatHistory
       (importChats (Parsed (ImportedArray [newChat; greetingsRenamed; tripCopy]))
          (togglePinChat "1700000000000" st))).
Proof.
  split; [reflexivity|].
  destruct (togglePin_import_pinned_then_newest (mount [[trip; greetings]]))
    as [Hpin _].
  destruct (Hpin "1700000000000") as [H1 _].
  split; [exact H1|].
  split; [vm_compute; reflexivity|].
  destruct (togglePin_import_pinned_then_newest
              (togglePinChat "1700000000000" (mount [[trip; greetings]])))
    as [_ Himport].
  destruct (Himport [newChat; greetingsRenamed; tripCopy]) as [H2 _].
  exact H2.
Defined.


Lemma bot_reply_is_split_into_lines_witness :
  includes "* " "Paris is the capital." = false /\
  botLines "Paris is the capital." = ["Paris is the capital."] /\
  botLines "Intro:* one * two* * " = ["Intro:"; "one"; "two"] /\
  messages (askQuestionSettled (Body (body (JString "* Flights* Hotels")))
              "2024-01-01T00:00:02.000Z" greetingsOpen) =
    [mkMessage bot (Lines ["Flights"; "Hotels"]) "2024-01-01T00:00:02.000Z"].
Proof.
  destruct bot_reply_is_split_into_lines as [_ [Hmsg [_ Hone]]].
  split; [reflexivity|].
  split; [exact (Hone "Paris is the capital." eq_refl)|].
  split; [reflexivity|].
  exact (Hmsg (body (JString "* Flights* Hotels")) "* Flights* Hotels"
              "2024-01-01T00:00:02.000Z" greetingsOpen eq_refl).
Defined.

(** ** The string functions on examples *)

Example split_examples :
  split "* " "* First point* Second point" = [""; "First point"; "Second point"] /\
  split "* " "a* " = ["a"; ""] /\
  split "* " "a* * b" = ["a"; ""; "b"] /\
  split "* " "" = [""] /\
  split " " " a  b" = [""; "a"; ""; "b"].
Proof. repeat split. Qed.

Example trim_examples :
  trim "  a b  " = "a b" /\ trim "   " = "" /\ trim "" = "" /\
  trim (String (ascii_of_nat 9) (String (ascii_of_nat 160) "x")) = "x".
Proof. repeat split. Qed.

Example toString_examples :
  toString 0 = "0" /\ toString 1700000000123 = "1700000000123".
Proof. split; reflexivity. Qed.

(** * Further properties of the component *)

(** ** Lists of sessions *)

Lemma findChat_Some (id : string) (chats : list Chat.t) (chat : Chat.t) :
  findChat id chats = Some chat -> In chat chats /\ Chat.id chat = id.
Proof.
  unfold findChat. intros H. apply find_some in H.
  destruct H as [Hin Hid]. split; [exact Hin | now apply String.eqb_eq].
Qed.

Lemma findChat_None (id : string) (chats : list Chat.t) :
  findChat id chats = None <-> present id chats = false.
Proof.
  rewrite findChat_present. destruct (findChat id chats); split; congruence.
Qed.

Lemma with_messages_same (chat : Chat.t) :
  Chat.with_messages chat (Chat.messages chat) = chat.
Proof. now destruct chat. Qed.

Lemma ids_map_withMessages (current : string) (messages : list Message)
  (chats : list Chat.t) :
  ids (map (withMessages current messages) chats) = ids chats.
Proof.
  unfold ids. rewrite map_map. apply map_ext. intros chat.
  unfold withMessages. now destruct (Chat.id chat =? current)%string.
Qed.

(** With ids that are unique, giving the session [chat] of the list its
    own messages changes nothing. *)
Lemma withMessages_own (chats : list Chat.t) (chat : Chat.t) :
  uniqueIds chats -> In chat chats ->
  map (withMessages (Chat.id chat) (Chat.messages chat)) chats = chats.
Proof.
  unfold uniqueIds, ids. intros Hnd Hin.
  rewrite <- (map_id chats) at 2. apply map_ext_in. intros c Hc.
  unfold withMessages.
  destruct (Chat.id c =? Chat.id chat)%string eqn:E; [|reflexivity].
  apply String.eqb_eq in E.
  assert (c = chat) as ->.
  { clear - Hnd Hin Hc E. induction chats as [|x l IH]; [contradiction|].
    simpl in Hnd. inversion Hnd as [|? ? Hx Hl]; subst.
    destruct Hin as [-> | Hin], Hc as [-> | Hc]; auto.
    - exfalso. apply Hx. rewrite <- E. now apply in_map.
    - exfalso. apply Hx. rewrite E. now apply in_map. }
  apply with_messages_same.
Qed.

Lemma saveEffect_chatHistory (st : App) :
  chatHistory (saveEffect st) =
  match currentSessionId st with
  | Some current =>
      if nonEmpty current
      then map (withMessages current (messages st)) (chatHistory st)
      else chatHistory st
  | None => chatHistory st
  end.
Proof.
  unfold saveEffect, noSession.
  destruct (currentSessionId st) as [current|]; [|reflexivity].
  destruct (nonEmpty current); reflexivity.
Qed.

Lemma toString_nonEmpty (now : N) : nonEmpty (toString now) = true.
Proof.
  destruct (toString_numeral now) as [S _]. rewrite S.
  destruct now as [|p]; [reflexivity|]. simpl N.to_uint.
  pose proof (DecimalPos.Unsigned.to_uint_nonnil p) as H.
  destruct (Pos.to_uint p); [contradiction | reflexivity..].
Qed.

Lemma filter_absent (id : string) (chats : list Chat.t) :
  present id chats = false ->
  filter (fun chat => negb (Chat.id chat =? id)%string) chats = chats.
Proof.
  unfold present. induction chats as [|chat chats IH]; simpl; [reflexivity|].
  intros H. apply orb_false_iff in H. destruct H as [H1 H2].
  rewrite H1. simpl. now rewrite IH.
Qed.

Lemma present_filter (id : string) (chats : list Chat.t) :
  present id (filter (fun chat => negb (Chat.id chat =? id)%string) chats) =
  false.
Proof.
  unfold present. induction chats as [|chat chats IH]; simpl; [reflexivity|].
  destruct (Chat.id chat =? id)%string eqn:E; simpl; [exact IH|].
  now rewrite E.
Qed.

Lemma deleteSession_chatHistory (st : App) (id : string) :
  chatHistory (deleteSession id st) =
  filter (fun chat => negb (Chat.id chat =? id)%string) (chatHistory st).
Proof.
  unfold deleteSession.
  destruct (currentSessionId st) as [current|]; [|reflexivity].
  destruct (id =? current)%string; [|reflexivity].
  destruct (filter _ (chatHistory st)) eqn:F; simpl; now rewrite ?F.
Qed.

Lemma deleteSession_getItem (st : App) (id : string) :
  getItem (deleteSession id st) = chatHistory (deleteSession id st).
Proof.
  unfold deleteSession.
  destruct (currentSessionId st) as [current|]; [|reflexivity].
  destruct (id =? current)%string; [|reflexivity].
  destruct (filter _ (chatHistory st)) eqn:F; simpl; now rewrite ?F.
Qed.

Lemma deleteSession_active (st : App) (id : string) :
  currentSessionId st = Some id ->
  match chatHistory (deleteSession id st) with
  | [] =>
      currentSessionId (deleteSession id st) = None /\
      messages (deleteSession id st) = []
  | first :: _ =>
      currentSessionId (deleteSession id st) = Some (Chat.id first) /\
      messages (deleteSession id st) = Chat.messages first
  end.
Proof.
  intros Hcur. rewrite deleteSession_chatHistory. unfold deleteSession.
  rewrite Hcur, String.eqb_refl.
  destruct (filter _ (chatHistory st)); simpl; split; reflexivity.
Qed.

Lemma create_ids (now : N) (st : App) :
  ids (chatHistory (commit (createNewSession now st))) =
  toString now :: ids (chatHistory st).
Proof.
  unfold commit.
  change (messagesChanged (createNewSession now st)) with true. cbv iota.
  rewrite saveEffect_chatHistory.
  change (currentSessionId (rendered (createNewSession now st)))
    with (Some (toString now)).
  cbv iota. rewrite toString_nonEmpty, ids_map_withMessages. reflexivity.
Qed.

(** ** Delete *)

(** X1. [deleteSession(id)] removes the sessions with the id, all of
    them, and keeps the others as they are and in their order; the list
    written is the list kept.  When the session deleted is the active
    one, the first session left becomes active with its messages, or no
    session is active and no message is shown when none is left; when
    another session is deleted the active session and the messages
    shown stay. *)
Theorem delete_removes_the_session (st : App) (id : string) :
  let st' := deleteSession id st in
  chatHistory st' =
    filter (fun chat => negb (Chat.id chat =? id)%string) (chatHistory st) /\
  (forall chat, In chat (chatHistory st') <->
                In chat (chatHistory st) /\ Chat.id chat <> id) /\
  present id (chatHistory st') = false /\
  (present id (chatHistory st) = false -> chatHistory st' = chatHistory st) /\
  wroteItsList st st' /\
  (currentSessionId st = Some id ->
   match chatHistory st' with
   | [] => currentSessionId st' = None /\ messages st' = []
   | first :: _ =>
       currentSessionId st' = Some (Chat.id first) /\
       messages st' = Chat.messages first
   end) /\
  (currentSessionId st <> Some id ->
   currentSessionId st' = currentSessionId st /\ messages st' = messages st).
Proof.
  intros st'.
  assert (E : chatHistory st' =
              filter (fun chat => negb (Chat.id chat =? id)%string)
                     (chatHistory st)).
  { subst st'. unfold deleteSession.
    destruct (currentSessionId st) as [current|]; [|reflexivity].
    destruct (id =? current)%string; [|reflexivity].
    destruct (filter _ (chatHistory st)) eqn:F; simpl; now rewrite ?F. }
  split; [exact E|].
  split; [|split; [|split; [|split; [|split]]]].
  - intros chat. rewrite E, filter_In, negb_true_iff, String.eqb_neq.
    reflexivity.
  - rewrite E. apply present_filter.
  - intros H. rewrite E. now apply filter_absent.
  - subst st'. unfold wroteItsList, deleteSession.
    destruct (currentSessionId st) as [current|]; [|reflexivity].
    destruct (id =? current)%string; [|reflexivity].
    destruct (filter _ (chatHistory st)) eqn:F; simpl; now rewrite ?F.
  - intros Hcur. rewrite E. subst st'. unfold deleteSession.
    rewrite Hcur, String.eqb_refl.
    destruct (filter _ (chatHistory st)); simpl; split; reflexivity.
  - intros Hcur. subst st'. unfold deleteSession.
    destruct (currentSessionId st) as [current|] eqn:C;
      [|simpl; rewrite C; split; reflexivity].
    destruct (id =? current)%string eqn:I;
      [|simpl; rewrite C; split; reflexivity].
    apply String.eqb_eq in I. subst. contradiction.
Qed.

(** Deleting the only session, which is open. *)
Lemma delete_removes_the_session_witness :
  let st' := commit (deleteSession "1700000000000" greetingsOpen) in
  currentSessionId greetingsOpen = Some "1700000000000" /\
  chatHistory (deleteSession "1700000000000" greetingsOpen) = [] /\
  currentSessionId (deleteSession "1700000000000" greetingsOpen) = None /\
  messages (deleteSession "1700000000000" greetingsOpen) = [] /\
  chatHistory st' = [] /\ getItem st' = [].
Proof.
  destruct (delete_removes_the_session greetingsOpen "1700000000000")
    as [_ [_ [_ [_ [_ [H _]]]]]].
  specialize (H eq_refl).
  split; [reflexivity|]. split; [reflexivity|].
  change (chatHistory (deleteSession "1700000000000" greetingsOpen))
    with (@nil Chat.t) in H.
  destruct H as [H1 H2].
  split; [exact H1|]. split; [exact H2|]. split; reflexivity.
Defined.

(** ** Create and load *)

Lemma withMessages_absent (id : string) (messages : list Message)
  (chats : list Chat.t) :
  present id chats = false -> map (withMessages id messages) chats = chats.
Proof.
  unfold present. induction chats as [|chat chats IH]; simpl; [reflexivity|].
  intros H. apply orb_false_iff in H. destruct H as [H1 H2].
  unfold withMessages at 1. rewrite H1. now rewrite IH.
Qed.

Lemma commit_chatHistory_own (st : App) (chat : Chat.t) :
  uniqueIds (chatHistory st) -> In chat (chatHistory st) ->
  currentSessionId st = Some (Chat.id chat) ->
  messages st = Chat.messages chat ->
  chatHistory (commit st) = chatHistory st.
Proof.
  intros Hu Hin Hcur Hm. unfold commit.
  destruct (messagesChanged st); [|reflexivity].
  rewrite saveEffect_chatHistory. simpl. rewrite Hcur, Hm.
  destruct (nonEmpty (Chat.id chat)); [|reflexivity].
  now apply withMessages_own.
Qed.

Lemma commit_getItem (st : App) :
  getItem st = chatHistory st -> getItem (commit st) = chatHistory (commit st).
Proof.
  unfold commit. destruct (messagesChanged st); [|auto].
  intros H. unfold saveEffect. simpl.
  destruct (noSession (currentSessionId st)); [exact H | reflexivity].
Qed.

(** X2. [createNewSession] puts a session named "New Chat", unpinned
    and without messages, at the front of the list, makes it the active
    one and shows no message.  When its id is new to the list, deleting
    it again gives back the list of before, in memory and in the
    store. *)
Theorem create_then_delete_restores_the_list (st : App) (now : N) :
  present (toString now) (chatHistory st) = false ->
  let created := commit (createNewSession now st) in
  let deleted := commit (deleteSession (toString now) created) in
  chatHistory created =
    Chat.mk (toString now) "New Chat" false [] :: chatHistory st /\
  currentSessionId created = Some (toString now) /\
  messages created = [] /\
  getItem created = chatHistory created /\
  (uniqueIds (chatHistory st) ->
   chatHistory deleted = chatHistory st /\ getItem deleted = chatHistory st).
Proof.
  intros Hnew created deleted.
  assert (Hc : chatHistory created =
               Chat.mk (toString now) "New Chat" false [] :: chatHistory st).
  { subst created. unfold commit, createNewSession. simpl.
    rewrite saveEffect_chatHistory. simpl. rewrite toString_nonEmpty.
    unfold withMessages at 1. simpl. rewrite String.eqb_refl. simpl.
    now rewrite withMessages_absent. }
  assert (Hcur : currentSessionId created = Some (toString now)).
  { subst created. unfold commit, createNewSession, saveEffect. simpl.
    rewrite toString_nonEmpty. reflexivity. }
  assert (Hg : getItem created = chatHistory created).
  { subst created. apply commit_getItem. reflexivity. }
  split; [exact Hc|]. split; [exact Hcur|]. split.
  { subst created. unfold commit, createNewSession, saveEffect. simpl.
    rewrite toString_nonEmpty. reflexivity. }
  split; [exact Hg|].
  intros Hu.
  pose proof (deleteSession_active created (toString now)) as Hactive.
  assert (Hd : chatHistory (deleteSession (toString now) created) =
               chatHistory st).
  { unfold deleteSession. rewrite Hcur, String.eqb_refl, Hc. simpl.
    rewrite String.eqb_refl. simpl. rewrite (filter_absent _ _ Hnew).
    destruct (chatHistory st); reflexivity. }
  specialize (Hactive Hcur). rewrite Hd in Hactive.
  assert (Hgd : getItem (deleteSession (toString now) created) =
                chatHistory (deleteSession (toString now) created)).
  { apply deleteSession_getItem. }
  assert (Hcd : chatHistory deleted = chatHistory st).
  { subst deleted. rewrite <- Hd.
    destruct (chatHistory st) as [|first rest] eqn:L.
    - destruct Hactive as [Hnone _]. unfold commit.
      destruct (messagesChanged _); [|reflexivity].
      rewrite saveEffect_chatHistory. simpl. now rewrite Hnone.
    - destruct Hactive as [Hfirst Hm].
      apply (commit_chatHistory_own _ first); rewrite ?Hd; auto.
      now left. }
  split; [exact Hcd|].
  subst deleted. rewrite (commit_getItem _ Hgd). exact Hcd.
Qed.

Lemma create_then_delete_restores_the_list_witness :
  let now := 1700000000003%N in
  let created := commit (createNewSession now greetingsOpen) in
  let deleted := commit (deleteSession (toString now) created) in
  present (toString now) (chatHistory greetingsOpen) = false /\
  uniqueIds (chatHistory greetingsOpen) /\
  chatHistory created =
    [Chat.mk "1700000000003" "New Chat" false []; greetings] /\
  chatHistory deleted = [greetings] /\
  getItem deleted = [greetings].
Proof.
  assert (Hu : uniqueIds (chatHistory greetingsOpen)).
  { repeat constructor. simpl. tauto. }
  destruct (create_then_delete_restores_the_list
              greetingsOpen 1700000000003%N eq_refl)
    as [H1 [_ [_ [_ H5]]]].
  destruct (H5 Hu) as [H6 H7].
  split; [reflexivity|]. split; [exact Hu|].
  split; [exact H1|]. split; [exact H6 | exact H7].
Defined.

(** X3. [loadSession(id)] does nothing when no session has the id.
    Otherwise the first session with the id becomes the active one and
    its messages are shown; when the ids of the list are unique the
    list stays as it is in memory, and the store still holds it if it
    did.  A click on the session that is open already writes nothing:
    the array given to [setMessages] is the one in the state, and no
    effect runs.  A click on another session, with an id that is not
    empty, makes the save effect write the list once. *)
Theorem load_shows_the_session (st : App) (id : string) :
  (present id (chatHistory st) = false -> loadSession id st = st) /\
  (forall session,
      findChat id (chatHistory st) = Some session ->
      let st' := commit (loadSession id st) in
      In session (chatHistory st) /\ Chat.id session = id /\
      currentSessionId st' = Some id /\
      messages st' = Chat.messages session /\
      (uniqueIds (chatHistory st) ->
       chatHistory st' = chatHistory st /\
       (getItem st = chatHistory st -> getItem st' = chatHistory st)) /\
      (messagesChanged st = false ->
       (currentSessionId st = Some id ->
        messagesChanged (loadSession id st) = false /\
        localStorage st' = localStorage st /\
        chatHistory st' = chatHistory st) /\
       (currentSessionId st <> Some id -> nonEmpty id = true ->
        wroteItsList st st'))).
Proof.
  split.
  - intros H. apply findChat_None in H. unfold loadSession. now rewrite H.
  - intros session Hfind st'.
    destruct (findChat_Some _ _ _ Hfind) as [Hin Hid].
    assert (L : loadSession id st =
                setAttributionShown (mentionsDeveloper (Chat.messages session))
                  ((if isCurrent (currentSessionId st) session
                    then keepMessages (Chat.messages session)
                    else setMessages (Chat.messages session))
                     (setCurrentSessionId (Some id) st))).
    { unfold loadSession. now rewrite Hfind. }
    assert (Hopen : currentSessionId st = Some id ->
                    isCurrent (currentSessionId st) session = true).
    { intros C. rewrite C. simpl. rewrite Hid. apply String.eqb_refl. }
    assert (Hother : currentSessionId st <> Some id ->
                     isCurrent (currentSessionId st) session = false).
    { intros C. unfold isCurrent.
      destruct (currentSessionId st) as [current|]; [|reflexivity].
      apply String.eqb_neq. intros E. apply C. now rewrite <- E, Hid. }
    assert (Hcur' : currentSessionId (loadSession id st) = Some id).
    { rewrite L.
      destruct (isCurrent (currentSessionId st) session); reflexivity. }
    assert (Hm' : messages (loadSession id st) = Chat.messages session).
    { rewrite L.
      destruct (isCurrent (currentSessionId st) session); reflexivity. }
    assert (Hc' : chatHistory (loadSession id st) = chatHistory st).
    { rewrite L.
      destruct (isCurrent (currentSessionId st) session); reflexivity. }
    assert (Hs' : localStorage (loadSession id st) = localStorage st).
    { rewrite L.
      destruct (isCurrent (currentSessionId st) session); reflexivity. }
    split; [exact Hin|]. split; [exact Hid|].
    assert (Hcur : currentSessionId st' = Some id).
    { subst st'. unfold commit.
      destruct (messagesChanged (loadSession id st)); [|exact Hcur'].
      unfold saveEffect.
      destruct (noSession (currentSessionId (rendered (loadSession id st))));
        exact Hcur'. }
    assert (Hm : messages st' = Chat.messages session).
    { subst st'. unfold commit.
      destruct (messagesChanged (loadSession id st)); [|exact Hm'].
      unfold saveEffect.
      destruct (noSession (currentSessionId (rendered (loadSession id st))));
        exact Hm'. }
    split; [exact Hcur|]. split; [exact Hm|]. split.
    + intros Hu.
      assert (Hc : chatHistory st' = chatHistory st).
      { subst st'. rewrite <- Hc'.
        apply (commit_chatHistory_own _ session).
        - now rewrite Hc'.
        - now rewrite Hc'.
        - now rewrite Hcur', Hid.
        - exact Hm'. }
      split; [exact Hc|].
      intros Hg. rewrite <- Hc. subst st'. apply commit_getItem.
      unfold getItem. now rewrite Hs', Hc'.
    + intros Hflag. split.
      * intros C.
        assert (F : messagesChanged (loadSession id st) = false).
        { rewrite L, (Hopen C). exact Hflag. }
        split; [exact F|].
        subst st'. unfold commit. rewrite F. split; assumption.
      * intros C Hne.
        assert (F : messagesChanged (loadSession id st) = true).
        { rewrite L, (Hother C). reflexivity. }
        subst st'. unfold wroteItsList, commit. rewrite F.
        unfold saveEffect.
        change (currentSessionId (rendered (loadSession id st)))
          with (currentSessionId (loadSession id st)).
        rewrite Hcur'. simpl noSession. rewrite Hne. simpl.
        now rewrite Hs'.
Qed.

(** A click on the other session of two, then on the session that is
    open, then on an id that no session has. *)
Lemma load_shows_the_session_witness :
  let st := mount [[trip; greetings]] in
  findChat "1700000000000" (chatHistory st) = Some greetings /\
  uniqueIds (chatHistory st) /\
  currentSessionId st = Some "1700000000001" /\
  currentSessionId (commit (loadSession "1700000000000" st)) =
    Some "1700000000000" /\
  chatHistory (commit (loadSession "1700000000000" st)) = [trip; greetings] /\
  localStorage (commit (loadSession "1700000000000" st)) =
    [trip; greetings] :: localStorage st /\
  localStorage (commit (loadSession "1700000000001" st)) = localStorage st /\
  loadSession "1700000000009" st = st.
Proof.
  assert (Hu : uniqueIds (chatHistory (mount [[trip; greetings]]))).
  { repeat constructor; simpl; intuition discriminate. }
  destruct (load_shows_the_session (mount [[trip; greetings]]) "1700000000000")
    as [_ H].
  destruct (H greetings eq_refl) as [_ [_ [Hcur [_ [Hlist Hlog]]]]].
  destruct (Hlist Hu) as [Hc _].
  destruct (Hlog eq_refl) as [_ Hother].
  assert (Hw : wroteItsList (mount [[trip; greetings]])
                 (commit (loadSession "1700000000000"
                            (mount [[trip; greetings]])))).
  { apply Hother; [discriminate | reflexivity]. }
  unfold wroteItsList in Hw. rewrite Hc in Hw.
  destruct (load_shows_the_session (mount [[trip; greetings]]) "1700000000001")
    as [_ H'].
  destruct (H' trip eq_refl) as [_ [_ [_ [_ [_ Hlog']]]]].
  destruct (Hlog' eq_refl) as [Hopen _].
  destruct (Hopen eq_refl) as [_ [Hsame _]].
  destruct (load_shows_the_session (mount [[trip; greetings]]) "1700000000009")
    as [Hmiss _].
  split; [reflexivity|]. split; [exact Hu|]. split; [reflexivity|].
  split; [exact Hcur|]. split; [exact Hc|]. split; [exact Hw|].
  split; [exact Hsame | exact (Hmiss eq_refl)].
Defined.

(** ** Sorting again *)

Lemma sort_of_sorted {A : Type} (compareFn : A -> A -> Z) (l : list A) :
  StronglySorted (mayPrecede compareFn) l -> sort compareFn l = l.
Proof.
  induction 1 as [|x l Hl IH Hx]; simpl; [reflexivity|].
  rewrite IH. destruct l as [|y l]; [reflexivity|].
  simpl. inversion Hx as [|? ? Hxy _]; subst.
  unfold mayPrecede in Hxy. apply Z.leb_le in Hxy. now rewrite Hxy.
Qed.


Lemma flipPin_involutive (id : string) (chat : Chat.t) :
  flipPin id (flipPin id chat) = chat.
Proof.
  unfold flipPin. destruct (Chat.id chat =? id)%string eqn:E.
  - simpl. rewrite E. destruct chat as [i n p m]. simpl.
    now rewrite negb_involutive.
  - now rewrite E.
Qed.

Lemma flipPin_absent (id : string) (chats : list Chat.t) :
  present id chats = false -> map (flipPin id) chats = chats.
Proof.
  unfold present. induction chats as [|chat chats IH]; simpl; [reflexivity|].
  intros H. apply orb_false_iff in H. destruct H as [H1 H2].
  unfold flipPin at 1. rewrite H1. now rewrite IH.
Qed.

Lemma present_Permutation (id : string) (l1 l2 : list Chat.t) :
  Permutation l1 l2 -> present id l1 = present id l2.
Proof.
  intros P. destruct (present id l2) eqn:E.
  - apply present_In. apply present_In in E. unfold ids in *.
    eapply Permutation_in; [|exact E].
    apply Permutation_map, Permutation_sym, P.
  - destruct (present id l1) eqn:E1; [|reflexivity].
    apply present_In in E1.
    assert (In id (ids l2)).
    { unfold ids in *. eapply Permutation_in; [|exact E1].
      now apply Permutation_map. }
    apply present_In in H. congruence.
Qed.

Lemma mergeChats_keeps (imported chatHistory : list Chat.t) (id : string) :
  present id chatHistory = true ->
  present id (mergeChats chatHistory imported) = true.
Proof.
  unfold mergeChats. revert chatHistory.
  induction imported as [|impChat imported IH]; intros chatHistory H; simpl.
  - exact H.
  - apply IH. rewrite mergeChat_present.
    destruct (present (Chat.id impChat) chatHistory); [exact H|].
    rewrite present_app, H. reflexivity.
Qed.

Lemma mergeChats_covers (imported chatHistory : list Chat.t) (impChat : Chat.t) :
  In impChat imported ->
  present (Chat.id impChat) (mergeChats chatHistory imported) = true.
Proof.
  revert chatHistory.
  induction imported as [|c imported IH]; intros chatHistory Hin;
    [contradiction|].
  destruct Hin as [-> | Hin].
  - change (mergeChats chatHistory (impChat :: imported))
      with (mergeChats (mergeChat chatHistory impChat) imported).
    apply mergeChats_keeps. rewrite mergeChat_present.
    destruct (present (Chat.id impChat) chatHistory) eqn:E; [exact E|].
    rewrite present_app. simpl. rewrite String.eqb_refl.
    now rewrite orb_true_r.
  - change (mergeChats chatHistory (c :: imported))
      with (mergeChats (mergeChat chatHistory c) imported).
    now apply IH.
Qed.

Section SortedLists.

Context {collation : Collation}.

Lemma sortChats_StronglySorted (chats : list Chat.t) :
  StronglySorted (mayPrecede compareChats) (sortChats chats).
Proof.
  apply sort_StronglySorted.
  - apply compareChats_total.
  - apply compareChats_trans.
Qed.

Lemma sortChats_idempotent (chats : list Chat.t) :
  sortChats (sortChats chats) = sortChats chats.
Proof. apply sort_of_sorted, sortChats_StronglySorted. Qed.

Lemma StronglySorted_pinnedThenNewest (chats : list Chat.t) :
  StronglySorted (mayPrecede compareChats) chats -> pinnedThenNewest chats.
Proof.
  intros H i j a b Hij Ha Hb.
  apply mayPrecede_compareChats.
  eapply StronglySorted_nth_error; eassumption.
Qed.

Lemma importChats_array (st : App) (items : list Chat.t) :
  chatHistory (importChats (Parsed (ImportedArray items)) st) =
  sortChats (mergeChats (chatHistory st) items).
Proof. reflexivity. Qed.

(** X4. Toggling the pin of a session twice gives every session its
    pinned flag back: the list is a permutation of the list of before,
    in the pinned-then-newest order.  Toggling the pin of an id that no
    session has only sorts the list.  The number of sessions never
    changes. *)
Theorem togglePin_twice_restores_the_flags (st : App) (id : string) :
  let once := togglePinChat id st in
  let twice := togglePinChat id once in
  Permutation (chatHistory twice) (chatHistory st) /\
  pinnedThenNewest (chatHistory twice) /\
  List.length (chatHistory once) = List.length (chatHistory st) /\
  (present id (chatHistory st) = false ->
   chatHistory once = sortChats (chatHistory st)) /\
  (StronglySorted (mayPrecede compareChats) (chatHistory st) ->
   present id (chatHistory st) = false ->
   chatHistory once = chatHistory st).
Proof.
  intros once twice. subst once twice. unfold togglePinChat. simpl.
  fold (flipPin id).
  split; [|split; [|split; [|split]]].
  - eapply Permutation_trans; [apply sort_Permutation|].
    eapply Permutation_trans;
      [apply Permutation_map, sort_Permutation|].
    rewrite map_map.
    rewrite (map_ext _ (fun chat => chat) (flipPin_involutive id)), map_id.
    apply Permutation_refl.
  - apply StronglySorted_pinnedThenNewest, sortChats_StronglySorted.
  - unfold sortChats. now rewrite sort_length, length_map.
  - intros H. now rewrite flipPin_absent.
  - intros Hs H. rewrite flipPin_absent by exact H.
    now apply sort_of_sorted.
Qed.

(** X5. Importing the same file a second time changes nothing: the list
    in memory after the second import is the list after the first,
    whatever the file holds. *)
Theorem import_twice_is_import_once (st : App) (parse : Parse) :
  let once := importChats parse st in
  let twice := importChats parse once in
  chatHistory twice = chatHistory once /\
  (getItem st = chatHistory st -> getItem twice = chatHistory once).
Proof.
  intros once twice. subst once twice.
  destruct parse as [message | imported].
  - split; [reflexivity | auto].
  - destruct imported as [items| | | | |]; try (split; [reflexivity | auto]).
    unfold importChats, importChatsStart, onload. simpl.
    assert (E : mergeChats (sortChats (mergeChats (chatHistory st) items)) items
                = sortChats (mergeChats (chatHistory st) items)).
    { apply mergeChats_all_present. intros impChat Hin.
      apply present_In. unfold sortChats.
      rewrite (present_Permutation _ _ _
                 (sort_Permutation compareChats
                    (mergeChats (chatHistory st) items))).
      now apply mergeChats_covers. }
    rewrite E, sortChats_idempotent. split; [reflexivity | reflexivity].
Qed.

(** X6. Importing a file that holds a list of sessions with unique
    ids, such as a copy of the stored list of another browser, into a
    component whose store is empty gives those sessions: the same
    sessions, pinned first and then by descending id, and that is what
    is stored.  When the list of the file was in that order, it is the
    same list. *)
Theorem import_into_empty_store_restores_the_sessions (items : list Chat.t) :
  uniqueIds items ->
  let st' := importChats (Parsed (ImportedArray items)) (mount []) in
  Permutation (chatHistory st') items /\
  pinnedThenNewest (chatHistory st') /\
  getItem st' = chatHistory st' /\
  (StronglySorted (mayPrecede compareChats) items ->
   chatHistory st' = items).
Proof.
  intros Hu st'.
  assert (E : chatHistory st' = sortChats items).
  { subst st'. rewrite importChats_array.
    change (chatHistory (mount [])) with (@nil Chat.t).
    rewrite mergeChats_NoDup by exact Hu.
    rewrite app_nil_l. unfold newSessions. f_equal.
    clear. induction items as [|c l IH]; [reflexivity|].
    change (c :: filter (fun impChat => negb (present (Chat.id impChat) [])) l
            = c :: l).
    now f_equal. }
  split; [rewrite E; apply sort_Permutation|].
  split; [rewrite E;
          apply StronglySorted_pinnedThenNewest, sortChats_StronglySorted|].
  split; [reflexivity|].
  intros Hs. rewrite E. now apply sort_of_sorted.
Qed.

End SortedLists.

(** The file is a copy of what a component stored after a pin. *)
Lemma import_into_empty_store_restores_the_sessions_witness :
  let st := togglePinChat "1700000000000" (mount [[trip; greetings]]) in
  let st' := importChats (Parsed (ImportedArray (getItem st))) (mount []) in
  uniqueIds (getItem st) /\
  getItem st = [Chat.with_pinned greetings true; trip] /\
  chatHistory st' = getItem st /\
  getItem st' = chatHistory st'.
Proof.
  assert (Hu : uniqueIds
                 (getItem
                    (togglePinChat "1700000000000" (mount [[trip; greetings]])))).
  { repeat constructor; simpl; intuition discriminate. }
  destruct (import_into_empty_store_restores_the_sessions _ Hu)
    as [_ [_ [H3 H4]]].
  split; [exact Hu|]. split; [reflexivity|].
  split; [|exact H3].
  apply H4. vm_compute.
  repeat constructor; discriminate.
Defined.

(** ** The ids stay unique *)

Lemma ids_filter_NoDup (keep : Chat.t -> bool) (chats : list Chat.t) :
  uniqueIds chats -> uniqueIds (filter keep chats).
Proof.
  unfold uniqueIds, ids.
  induction chats as [|chat chats IH]; simpl; intros H; [constructor|].
  inversion H as [|? ? Hx Hl]; subst.
  destruct (keep chat); simpl; [|now apply IH].
  constructor; [|now apply IH].
  intros Hin. apply Hx. apply in_map_iff in Hin.
  destruct Hin as [c [Hc Hf]]. apply filter_In in Hf.
  rewrite <- Hc. apply in_map. tauto.
Qed.

Lemma ids_map_same (f : Chat.t -> Chat.t) (chats : list Chat.t) :
  (forall chat, Chat.id (f chat) = Chat.id chat) ->
  ids (map f chats) = ids chats.
Proof.
  intros H. unfold ids. rewrite map_map. now apply map_ext.
Qed.

Lemma flipPin_id (id : string) (chat : Chat.t) :
  Chat.id (flipPin id chat) = Chat.id chat.
Proof. unfold flipPin. now destruct (Chat.id chat =? id)%string. Qed.

Lemma renamed_id (id newName : string) (chat : Chat.t) :
  Chat.id (renamed id newName chat) = Chat.id chat.
Proof. unfold renamed. now destruct (Chat.id chat =? id)%string. Qed.

Lemma uniqueIds_Permutation (l1 l2 : list Chat.t) :
  Permutation l1 l2 -> uniqueIds l1 -> uniqueIds l2.
Proof.
  unfold uniqueIds, ids. intros P.
  apply Permutation_NoDup. now apply Permutation_map.
Qed.

Lemma mergeChats_uniqueIds (imported chatHistory : list Chat.t) :
  uniqueIds chatHistory -> uniqueIds (mergeChats chatHistory imported).
Proof.
  unfold mergeChats. revert chatHistory.
  induction imported as [|impChat imported IH]; intros chatHistory H; simpl.
  - exact H.
  - apply IH. rewrite mergeChat_present.
    destruct (present (Chat.id impChat) chatHistory) eqn:E; [exact H|].
    apply (uniqueIds_Permutation (impChat :: chatHistory)).
    + apply Permutation_cons_append.
    + unfold uniqueIds, ids in *. simpl. constructor; [|exact H].
      intros Hin. apply present_In in Hin. congruence.
Qed.

Lemma saveEffect_uniqueIds (st : App) :
  uniqueIds (chatHistory st) -> uniqueIds (chatHistory (saveEffect st)).
Proof.
  rewrite saveEffect_chatHistory.
  destruct (currentSessionId st) as [current|]; [|auto].
  destruct (nonEmpty current); [|auto].
  unfold uniqueIds. now rewrite ids_map_withMessages.
Qed.

Lemma commit_uniqueIds (st : App) :
  uniqueIds (chatHistory st) -> uniqueIds (chatHistory (commit st)).
Proof.
  unfold commit. destruct (messagesChanged st); [|auto].
  intros H. now apply saveEffect_uniqueIds.
Qed.

Lemma askQuestion_chatHistory (now : string) (st : App) :
  chatHistory (askQuestion now st) = chatHistory st \/
  exists current name,
    chatHistory (askQuestion now st) =
    map (fun chat => if (Chat.id chat =? current)%string
                     then Chat.with_name chat name else chat)
        (chatHistory st).
Proof.
  unfold askQuestion.
  destruct (nonEmpty (trim (question st))); simpl; [|now left].
  destruct (currentSessionId st) as [current|]; [|now left].
  destruct (findChat current (chatHistory st)) as [currentChat|]; [|now left].
  destruct ((Chat.name currentChat =? "")%string
            || (Chat.name currentChat =? "New Chat")%string); [|now left].
  right. exists current, (shortName (question st)). reflexivity.
Qed.

Section UniqueIds.

Context {collation : Collation}.

(** X7. Every operation keeps the ids of the list unique, a creation
    included when the clock reading it prints is not the id of a
    session of the list; an import does so whatever the document
    repeats.  A creation at a reading whose id the list holds gives
    two sessions with the same id. *)
Theorem unique_ids_are_kept (st : App) (op : Operation) :
  (uniqueIds (chatHistory st) ->
   match op with
   | Create now => present (toString now) (chatHistory st) = false
   | _ => True
   end ->
   uniqueIds (chatHistory (perform op st))) /\
  (forall now,
      present (toString now) (chatHistory st) = true ->
      ~ uniqueIds (chatHistory (perform (Create now) st))).
Proof.
  split.
  - intros Hu Hop. unfold perform. apply commit_uniqueIds.
    destruct op; simpl.
    + unfold uniqueIds, ids. simpl. constructor; [|exact Hu].
      intros Hin. apply present_In in Hin. congruence.
    + unfold loadSession.
      destruct (findChat id (chatHistory st)) as [session|]; [|exact Hu].
      destruct (isCurrent (currentSessionId st) session); exact Hu.
    + rewrite deleteSession_chatHistory. now apply ids_filter_NoDup.
    + exact Hu.
    + apply (uniqueIds_Permutation (map (flipPin id) (chatHistory st))).
      * apply Permutation_sym, sort_Permutation.
      * unfold uniqueIds. rewrite ids_map_same; [exact Hu|].
        apply flipPin_id.
    + rewrite saveRename_unless_blank.
      destruct (blank newName); simpl; [exact Hu|].
      unfold uniqueIds. rewrite ids_map_same; [exact Hu|].
      apply renamed_id.
    + destruct (askQuestion_chatHistory now (setQuestion text0 st))
        as [E | [current [name E]]]; rewrite E; simpl; [exact Hu|].
      unfold uniqueIds. rewrite ids_map_same; [exact Hu|].
      intros chat. now destruct (Chat.id chat =? current)%string.
    + exact Hu.
    + unfold onload.
      destruct (importTry parse st) as [merged|message] eqn:T; simpl;
        [|exact Hu].
      unfold importTry in T. destruct parse as [m|imported]; [discriminate|].
      destruct (negb (isArray imported)); [discriminate|].
      injection T as <-.
      apply (uniqueIds_Permutation
               (mergeChats (chatHistory st) (elements imported))).
      * apply Permutation_sym, sort_Permutation.
      * now apply mergeChats_uniqueIds.
  - intros now Hp Hu.
    change (perform (Create now) st) with (commit (createNewSession now st))
      in Hu.
    unfold uniqueIds in Hu. rewrite create_ids in Hu. inversion Hu as [|? ? Hx _]; subst.
    apply Hx. now apply present_In.
Qed.

End UniqueIds.

Lemma unique_ids_are_kept_witness :
  let st := mount [[trip; greetings]] in
  uniqueIds (chatHistory st) /\
  present (toString 1700000000003) (chatHistory st) = false /\
  uniqueIds (chatHistory (perform (Create 1700000000003) st)) /\
  uniqueIds (chatHistory
               (perform (Import (Parsed (ImportedArray [tripCopy; newChat; newChat])))
                  st)) /\
  present (toString 1700000000001) (chatHistory st) = true /\
  ~ uniqueIds (chatHistory (perform (Create 1700000000001) st)).
Proof.
  assert (Hu : uniqueIds (chatHistory (mount [[trip; greetings]]))).
  { repeat constructor; simpl; intuition discriminate. }
  split; [exact Hu|]. split; [reflexivity|].
  split.
  { destruct (unique_ids_are_kept (mount [[trip; greetings]])
                (Create 1700000000003)) as [H _].
    exact (H Hu eq_refl). }
  split.
  { destruct (unique_ids_are_kept (mount [[trip; greetings]])
                (Import (Parsed (ImportedArray [tripCopy; newChat; newChat]))))
      as [H _].
    exact (H Hu I). }
  split; [reflexivity|].
  destruct (unique_ids_are_kept (mount [[trip; greetings]])
              (Create 1700000000003)) as [_ H].
  exact (H 1700000000001%N eq_refl).
Defined.

(** ** The messages shown are those of the active session *)

Lemma present_same_ids (id : string) (l1 l2 : list Chat.t) :
  ids l1 = ids l2 -> present id l1 = present id l2.
Proof.
  intros H. destruct (present id l2) eqn:E.
  - apply present_In. rewrite H. now apply present_In.
  - destruct (present id l1) eqn:E1; [|reflexivity].
    apply present_In in E1. rewrite H in E1. apply present_In in E1.
    congruence.
Qed.

Lemma saveEffect_keeps_view (st : App) :
  currentSessionId (saveEffect st) = currentSessionId st /\
  messages (saveEffect st) = messages st.
Proof.
  unfold saveEffect. destruct (noSession (currentSessionId st)); split;
    reflexivity.
Qed.

(** Once [messages] was set, the render makes the list agree with it,
    provided the active session is in the list. *)
Lemma commit_shows_after_setMessages (st : App) :
  messagesChanged st = true ->
  (forall current, currentSessionId st = Some current ->
                   nonEmpty current = true ->
                   present current (chatHistory st) = true) ->
  showsActiveSession (commit st).
Proof.
  intros Hflag Hpresent. unfold commit. rewrite Hflag.
  unfold showsActiveSession.
  destruct (saveEffect_keeps_view (rendered st)) as [Hc Hm].
  rewrite Hc, Hm, saveEffect_chatHistory. simpl.
  destruct (currentSessionId st) as [current|] eqn:C; [|exact I].
  intros Hne. rewrite Hne. split.
  - rewrite (present_same_ids _ _ (chatHistory st)).
    + now apply Hpresent.
    + apply ids_map_withMessages.
  - intros chat Hin Hid. apply in_map_iff in Hin.
    destruct Hin as [c [Hc' _]]. subst chat. unfold withMessages in *.
    destruct (Chat.id c =? current)%string eqn:E; [reflexivity|].
    apply String.eqb_neq in E. contradiction.
Qed.

Lemma commit_shows (st : App) :
  showsActiveSession st -> showsActiveSession (commit st).
Proof.
  intros H. destruct (messagesChanged st) eqn:F.
  - apply commit_shows_after_setMessages; [exact F|].
    intros current Hc Hne. unfold showsActiveSession in H.
    rewrite Hc in H. now apply H.
  - unfold commit. now rewrite F.
Qed.

(** A handler that keeps the active session and the messages shown, and
    that keeps the id and the messages of the sessions it keeps. *)
Lemma shows_kept (st st' : App) :
  currentSessionId st' = currentSessionId st ->
  messages st' = messages st ->
  (forall current, currentSessionId st = Some current ->
                   present current (chatHistory st) = true ->
                   present current (chatHistory st') = true) ->
  (forall chat, In chat (chatHistory st') ->
                present (Chat.id chat) (chatHistory st) = true ->
                exists c, In c (chatHistory st) /\
                          Chat.id c = Chat.id chat /\
                          Chat.messages c = Chat.messages chat) ->
  showsActiveSession st -> showsActiveSession st'.
Proof.
  unfold showsActiveSession. intros Hc Hm Hp Hk H. rewrite Hc, Hm.
  destruct (currentSessionId st) as [current|]; [|exact I].
  intros Hne. destruct (H Hne) as [H1 H2]. split.
  - now apply Hp.
  - intros chat Hin Hid.
    destruct (Hk chat Hin) as [c [Hcin [Hcid Hcm]]].
    + now rewrite Hid.
    + rewrite <- Hcm. apply H2; [exact Hcin | congruence].
Qed.

Lemma shows_present (st : App) (current : string) :
  showsActiveSession st -> currentSessionId st = Some current ->
  nonEmpty current = true -> present current (chatHistory st) = true.
Proof.
  unfold showsActiveSession. intros H Hc Hne. rewrite Hc in H. now apply H.
Qed.

Lemma askQuestion_currentSessionId (now : string) (st : App) :
  currentSessionId (askQuestion now st) = currentSessionId st.
Proof.
  unfold askQuestion.
  destruct (nonEmpty (trim (question st))); simpl; [|reflexivity].
  destruct (currentSessionId st) as [current|] eqn:C;
    [|simpl; now rewrite C].
  destruct (findChat current (chatHistory st)) as [cc|];
    [|simpl; now rewrite C].
  destruct ((Chat.name cc =? "")%string
            || (Chat.name cc =? "New Chat")%string); simpl; now rewrite C.
Qed.

Lemma askQuestion_sets_messages (now : string) (st : App) :
  nonEmpty (trim (question st)) = true ->
  messagesChanged (askQuestion now st) = true.
Proof.
  intros T. unfold askQuestion. rewrite T. simpl.
  destruct (currentSessionId st) as [current|]; [|reflexivity].
  destruct (findChat current (chatHistory st)) as [cc|]; [|reflexivity].
  destruct ((Chat.name cc =? "")%string
            || (Chat.name cc =? "New Chat")%string); reflexivity.
Qed.

Lemma askQuestion_ids (now : string) (st : App) :
  ids (chatHistory (askQuestion now st)) = ids (chatHistory st).
Proof.
  destruct (askQuestion_chatHistory now st) as [E | [current [name E]]];
    rewrite E; [reflexivity|].
  apply ids_map_same. intros chat.
  now destruct (Chat.id chat =? current)%string.
Qed.

Section ActiveSession.

Context {collation : Collation}.

Lemma togglePinChat_chatHistory (id : string) (st : App) :
  chatHistory (togglePinChat id st) =
  sort compareChats (map (flipPin id) (chatHistory st)).
Proof. reflexivity. Qed.

Lemma shows_perform (op : Operation) (st : App) :
  showsActiveSession st -> showsActiveSession (perform op st).
Proof.
  intros H. destruct op; unfold perform; simpl callback; simpl handler.
  - (* create *)
    apply commit_shows_after_setMessages; [reflexivity|].
    intros current Hc _. simpl in Hc. injection Hc as <-.
    simpl. now rewrite String.eqb_refl.
  - (* load *)
    unfold loadSession.
    destruct (findChat id (chatHistory st)) as [session|] eqn:F;
      [|now apply commit_shows].
    destruct (isCurrent (currentSessionId st) session) eqn:O.
    + (* the open session: its messages are the ones shown *)
      apply commit_shows.
      destruct (findChat_Some _ _ _ F) as [Hin Hid].
      unfold isCurrent in O.
      destruct (currentSessionId st) as [current|] eqn:C; [|discriminate].
      apply String.eqb_eq in O. rewrite Hid in O. subst current.
      unfold showsActiveSession in H |- *. rewrite C in H. simpl.
      intros Hne. destruct (H Hne) as [Hp Hall].
      split; [exact Hp|].
      intros chat Hc Hcid. rewrite (Hall chat Hc Hcid).
      symmetry. now apply Hall.
    + apply commit_shows_after_setMessages; [reflexivity|].
      intros current Hc _. simpl in Hc. injection Hc as <-. simpl.
      rewrite findChat_present, F. reflexivity.
  - (* delete *)
    destruct (currentSessionId st) as [current|] eqn:C.
    + destruct (id =? current)%string eqn:E.
      * apply String.eqb_eq in E. subst current.
        pose proof (deleteSession_active st id C) as Ha.
        destruct (chatHistory (deleteSession id st)) as [|first rest] eqn:L.
        -- destruct Ha as [Hnone _].
           assert (Hn : currentSessionId (commit (deleteSession id st)) = None).
           { unfold commit. destruct (messagesChanged _); [|exact Hnone].
             destruct (saveEffect_keeps_view (rendered (deleteSession id st)))
               as [Hv _].
             rewrite Hv. exact Hnone. }
           unfold showsActiveSession. now rewrite Hn.
        -- destruct Ha as [Hfirst _].
           apply commit_shows_after_setMessages.
           ++ unfold deleteSession. rewrite C, String.eqb_refl.
              destruct (filter _ (chatHistory st)); reflexivity.
           ++ intros current Hc _. rewrite Hfirst in Hc.
              injection Hc as <-. rewrite L. simpl.
              now rewrite String.eqb_refl.
      * apply commit_shows.
        assert (D : deleteSession id st =
                    setChatHistory
                      (filter (fun chat => negb (Chat.id chat =? id)%string)
                              (chatHistory st))
                      (setItem
                         (filter (fun chat => negb (Chat.id chat =? id)%string)
                                 (chatHistory st)) st)).
        { unfold deleteSession. now rewrite C, E. }
        rewrite D. apply (shows_kept st); simpl; auto.
        -- intros c Hc Hp. rewrite C in Hc. injection Hc as <-.
           apply present_In in Hp. apply present_In.
           unfold ids in *. apply in_map_iff in Hp.
           destruct Hp as [chat [Hid Hin]]. apply in_map_iff.
           exists chat. split; [exact Hid|]. apply filter_In.
           split; [exact Hin|]. rewrite Hid, String.eqb_sym, E. reflexivity.
        -- intros chat Hin _. apply filter_In in Hin.
           exists chat. tauto.
    + apply commit_shows.
      unfold showsActiveSession. unfold deleteSession. rewrite C. simpl.
      now rewrite C.
  - (* refresh *)
    apply commit_shows_after_setMessages; [reflexivity|].
    intros current Hc Hne. simpl in *. now apply (shows_present st).
  - (* toggle pin *)
    apply commit_shows.
    apply (shows_kept st);
      [reflexivity | reflexivity
       | rewrite togglePinChat_chatHistory
       | rewrite togglePinChat_chatHistory
       | exact H].
    + intros current _ Hp.
      rewrite (present_Permutation _ _ _
                 (sort_Permutation compareChats
                    (map (flipPin id) (chatHistory st)))).
      rewrite (present_same_ids _ _ (chatHistory st)); [exact Hp|].
      apply ids_map_same, flipPin_id.
    + intros chat Hin _.
      apply (Permutation_in _ (sort_Permutation compareChats _)) in Hin.
      apply in_map_iff in Hin. destruct Hin as [c [Hc Hin]].
      exists c. subst chat. split; [exact Hin|].
      unfold flipPin. destruct (Chat.id c =? id)%string; split; reflexivity.
  - (* rename *)
    apply commit_shows. rewrite saveRename_unless_blank.
    destruct (blank newName).
    + apply (shows_kept st); simpl; auto. intros chat Hin _. now exists chat.
    + apply (shows_kept st); simpl; auto.
      * intros current _ Hp.
        rewrite (present_same_ids _ _ (chatHistory st)); [exact Hp|].
        apply ids_map_same, renamed_id.
      * intros chat Hin _. apply in_map_iff in Hin.
        destruct Hin as [c [Hc Hin]]. exists c. subst chat.
        split; [exact Hin|]. unfold renamed.
        destruct (Chat.id c =? id)%string; split; reflexivity.
  - (* send *)
    destruct (nonEmpty (trim text0)) eqn:T.
    + apply commit_shows_after_setMessages.
      * apply askQuestion_sets_messages. exact T.
      * intros current Hc Hne. rewrite askQuestion_currentSessionId in Hc.
        simpl in Hc.
        rewrite (present_same_ids _ _ (chatHistory st)).
        -- now apply (shows_present st).
        -- exact (askQuestion_ids now (setQuestion text0 st)).
    + apply commit_shows. unfold askQuestion. simpl question. rewrite T.
      apply (shows_kept st); simpl; auto.
      intros chat Hin _. now exists chat.
  - (* receive *)
    apply commit_shows_after_setMessages; [reflexivity|].
    intros current Hc Hne. simpl in *. now apply (shows_present st).
  - (* import *)
    apply commit_shows. unfold onload.
    destruct (importTry parse st) as [merged|message] eqn:T.
    + unfold importTry in T. destruct parse as [m|imported]; [discriminate|].
      destruct (negb (isArray imported)); [discriminate|].
      injection T as <-.
      apply (shows_kept st); simpl; auto.
      * intros current _ Hp. unfold sortChats.
        rewrite (present_Permutation _ _ _
                   (sort_Permutation compareChats _)).
        now apply mergeChats_keeps.
      * intros chat Hin Hp. unfold sortChats in Hin.
        apply (Permutation_in _ (sort_Permutation compareChats _)) in Hin.
        apply mergeChats_origin in Hin.
        destruct Hin as [Hin | [_ Hn]]; [now exists chat | congruence].
    + apply (shows_kept st); simpl; auto.
      intros chat Hin _. now exists chat.
Qed.

(** X8. From the mounted component on, after every operation of every
    sequence, the messages shown are those of the active session: when
    a session is active, the list holds a session with its id, and
    every session with that id holds, in memory and in the store, the
    messages shown. *)
Theorem messages_shown_are_the_active_session
  (stored : list (list Chat.t)) (ops : list Operation) :
  let st := run ops (mount stored) in
  showsActiveSession st /\ getItem st = chatHistory st.
Proof.
  intros st. subst st. split; [|apply run_synced, mount_synced].
  assert (Hm : showsActiveSession (mount stored)).
  { unfold mount, loadEffect.
    destruct (getItem (initial stored)) as [|first rest] eqn:G.
    - unfold showsActiveSession. reflexivity.
    - apply commit_shows_after_setMessages; [reflexivity|].
      intros current Hc _. simpl in Hc. injection Hc as <-. simpl.
      now rewrite String.eqb_refl. }
  revert Hm. generalize (mount stored).
  induction ops as [|op ops IH]; intros st0 H; simpl; [exact H|].
  apply IH. now apply shows_perform.
Qed.

End ActiveSession.

(** ** The list shown under a search term *)





Section ShownList.

Context {collation : Collation}.


End ShownList.


(** ** Questions and replies *)

Lemma names_map_withMessages (current : string) (messages : list Message)
  (chats : list Chat.t) :
  map Chat.name (map (withMessages current messages) chats) =
  map Chat.name chats.
Proof.
  rewrite map_map. apply map_ext. intros chat. unfold withMessages.
  now destruct (Chat.id chat =? current)%string.
Qed.

Lemma commit_names (st : App) :
  map Chat.name (chatHistory (commit st)) = map Chat.name (chatHistory st).
Proof.
  unfold commit. destruct (messagesChanged st); [|reflexivity].
  rewrite saveEffect_chatHistory. simpl.
  destruct (currentSessionId st) as [current|]; [|reflexivity].
  destruct (nonEmpty current); [|reflexivity].
  apply names_map_withMessages.
Qed.

Lemma commit_without_session (st : App) :
  currentSessionId st = None ->
  chatHistory (commit st) = chatHistory st /\
  localStorage (commit st) = localStorage st /\
  messages (commit st) = messages st /\
  currentSessionId (commit st) = None.
Proof.
  intros H. unfold commit. destruct (messagesChanged st); [|auto].
  unfold saveEffect. simpl. rewrite H. simpl. auto.
Qed.

(** X10. A question sent while no session is active is shown with its
    reply but stored nowhere: the two messages are appended to the
    messages shown, and neither the list nor the store changes. *)
Theorem question_without_session_is_not_stored
  (st : App) (text now later : string) (outcome : Outcome) :
  currentSessionId st = None ->
  nonEmpty (trim text) = true ->
  let sent := commit (askQuestion now (setQuestion text st)) in
  let answered := commit (askQuestionSettled outcome later sent) in
  messages sent = messages st ++ [mkMessage user (Text text) now] /\
  chatHistory sent = chatHistory st /\
  localStorage sent = localStorage st /\
  (exists lines,
      messages answered =
      messages st ++ [mkMessage user (Text text) now;
                      mkMessage bot (Lines lines) later]) /\
  chatHistory answered = chatHistory st /\
  localStorage answered = localStorage st.
Proof.
  intros Hcur Htext sent answered.
  assert (A : askQuestion now (setQuestion text st) =
              setIsTyping true
                (setMessages (messages st ++ [mkMessage user (Text text) now])
                   (setQuestion text st))).
  { unfold askQuestion. simpl. now rewrite Htext, Hcur. }
  destruct (commit_without_session (askQuestion now (setQuestion text st)))
    as [S1 [S2 [S3 S4]]].
  { rewrite A. exact Hcur. }
  fold sent in S1, S2, S3, S4.
  rewrite A in S1, S2, S3. simpl in S1, S2, S3.
  destruct (commit_without_session (askQuestionSettled outcome later sent))
    as [R1 [R2 [R3 _]]].
  { exact S4. }
  fold answered in R1, R2, R3. simpl in R1, R2.
  split; [exact S3|]. split; [exact S1|]. split; [exact S2|].
  split; [|split; [now rewrite R1 | now rewrite R2]].
  rewrite R3. unfold askQuestionSettled. simpl. rewrite S3.
  destruct (replyTry outcome) as [lines|];
    eexists; rewrite <- app_assoc; reflexivity.
Qed.

Lemma question_without_session_is_not_stored_witness :
  let st := mount [] in
  let sent := commit (askQuestion "2024-01-01T00:00:00.000Z"
                        (setQuestion "Hello there" st)) in
  let answered :=
    commit (askQuestionSettled (Body (body (JString "Hi!")))
              "2024-01-01T00:00:01.000Z" sent) in
  currentSessionId st = None /\
  messages answered =
    [mkMessage user (Text "Hello there") "2024-01-01T00:00:00.000Z";
     mkMessage bot (Lines ["Hi!"]) "2024-01-01T00:00:01.000Z"] /\
  chatHistory answered = [] /\
  localStorage answered = [].
Proof.
  destruct (question_without_session_is_not_stored
              (mount []) "Hello there" "2024-01-01T00:00:00.000Z"
              "2024-01-01T00:00:01.000Z" (Body (body (JString "Hi!")))
              eq_refl eq_refl) as [_ [_ [_ [_ [H5 H6]]]]].
  split; [reflexivity|]. split; [reflexivity|].
  split; [exact H5 | exact H6].
Defined.

(** X11. A question that is empty or white space only changes nothing.
    A question sent on a session whose name is neither empty nor
    "New Chat" is appended to the messages shown as it was typed, and
    renames no session. *)
Theorem question_keeps_a_chosen_name (st : App) (text now : string) :
  (blank text = true ->
   askQuestion now (setQuestion text st) = setQuestion text st) /\
  (forall current currentChat,
      blank text = false ->
      currentSessionId st = Some current ->
      findChat current (chatHistory st) = Some currentChat ->
      Chat.name currentChat <> "" ->
      Chat.name currentChat <> "New Chat" ->
      let st' := commit (askQuestion now (setQuestion text st)) in
      messages st' = messages st ++ [mkMessage user (Text text) now] /\
      map Chat.name (chatHistory st') = map Chat.name (chatHistory st) /\
      ids (chatHistory st') = ids (chatHistory st)).
Proof.
  split.
  - intros H. unfold askQuestion. simpl. now rewrite trim_blank.
  - intros current currentChat Hb Hcur Hfind H1 H2 st'.
    assert (A : askQuestion now (setQuestion text st) =
                setIsTyping true
                  (setMessages (messages st ++ [mkMessage user (Text text) now])
                     (setQuestion text st))).
    { unfold askQuestion. simpl.
      rewrite (trim_not_blank _ Hb), Hcur, Hfind. simpl.
      apply String.eqb_neq in H1, H2. now rewrite H1, H2. }
    subst st'. split; [|split].
    + rewrite A. unfold commit. simpl.
      now destruct (saveEffect_keeps_view
                      (rendered
                         (setIsTyping true
                            (setMessages
                               (messages st ++ [mkMessage user (Text text) now])
                               (setQuestion text st))))) as [_ ->].
    + rewrite commit_names, A. reflexivity.
    + rewrite A. unfold commit. simpl. rewrite saveEffect_chatHistory. simpl.
      rewrite Hcur. destruct (nonEmpty current); [|reflexivity].
      apply ids_map_withMessages.
Qed.

Lemma question_keeps_a_chosen_name_witness :
  let st' := commit (askQuestion "2024-01-01T00:00:00.000Z"
                       (setQuestion "What is new?" greetingsOpen)) in
  blank "What is new?" = false /\
  findChat "1700000000000" (chatHistory greetingsOpen) = Some greetings /\
  map Chat.name (chatHistory st') = ["Greetings"] /\
  blank "  " = true /\
  askQuestion "2024-01-01T00:00:00.000Z" (setQuestion "  " greetingsOpen) =
    setQuestion "  " greetingsOpen.
Proof.
  destruct (question_keeps_a_chosen_name greetingsOpen "What is new?"
              "2024-01-01T00:00:00.000Z") as [_ H].
  destruct (H "1700000000000" greetings eq_refl eq_refl eq_refl)
    as [_ [Hn _]]; [discriminate | discriminate |].
  destruct (question_keeps_a_chosen_name greetingsOpen "  "
              "2024-01-01T00:00:00.000Z") as [Hb _].
  split; [reflexivity|]. split; [reflexivity|]. split; [exact Hn|].
  split; [reflexivity | exact (Hb eq_refl)].
Defined.

(** X12. However the request ends, exactly one bot message is appended
    to the messages shown, the typing indicator is turned off and the
    question field is emptied; the list is not touched by the handler.
    The message is the fixed error line when the request fails, when
    the body does not parse, and when the text read from the body is a
    truthy value that is not a string. *)
Theorem reply_settles_the_question
  (st : App) (outcome : Outcome) (now : string) :
  let st' := askQuestionSettled outcome now st in
  let failure :=
    mkMessage bot (Lines ["Error: Could not fetch response."]) now in
  isTyping st' = false /\ question st' = "" /\
  chatHistory st' = chatHistory st /\ localStorage st' = localStorage st /\
  (exists lines, messages st' = messages st ++ [mkMessage bot (Lines lines) now]) /\
  (forall message,
      outcome = FetchFailed message \/ outcome = BodyInvalid message ->
      messages st' = messages st ++ [failure]) /\
  (forall data text,
      outcome = Body data -> replyText data = Normal (Some text) ->
      toBoolean (Some text) = true ->
      (forall s, text <> JString s) ->
      messages st' = messages st ++ [failure]).
Proof.
  intros st' failure. subst st' failure. unfold askQuestionSettled.
  cbn [isTyping question chatHistory localStorage messages
       setQuestion setIsTyping setMessages].
  repeat match goal with |- _ /\ _ => split end; try reflexivity.
  - destruct (replyTry outcome); eexists; reflexivity.
  - intros message [-> | ->]; reflexivity.
  - intros data text -> Htext Htrue Hnot.
    unfold replyTry, rawReply. rewrite Htext. unfold bind, or.
    rewrite Htrue.
    destruct text; try reflexivity. exfalso. now apply (Hnot s).
Qed.

Lemma reply_settles_the_question_witness :
  replyText (body (JNumber 42%float)) = Normal (Some (JNumber 42%float)) /\
  toBoolean (Some (JNumber 42%float)) = true /\
  messages (askQuestionSettled (Body (body (JNumber 42%float)))
              "2024-01-01T00:00:01.000Z" greetingsOpen) =
    [mkMessage bot (Lines ["Error: Could not fetch response."])
       "2024-01-01T00:00:01.000Z"] /\
  messages (askQuestionSettled (FetchFailed "Failed to fetch")
              "2024-01-01T00:00:01.000Z" greetingsOpen) =
    [mkMessage bot (Lines ["Error: Could not fetch response."])
       "2024-01-01T00:00:01.000Z"].
Proof.
  destruct (reply_settles_the_question greetingsOpen
              (Body (body (JNumber 42%float))) "2024-01-01T00:00:01.000Z")
    as [_ [_ [_ [_ [_ [_ H]]]]]].
  destruct (reply_settles_the_question greetingsOpen
              (FetchFailed "Failed to fetch") "2024-01-01T00:00:01.000Z")
    as [_ [_ [_ [_ [_ [H' _]]]]]].
  split; [reflexivity|]. split; [reflexivity|]. split.
  - apply (H (body (JNumber 42%float)) (JNumber 42%float));
      try reflexivity. intros s. discriminate.
  - apply (H' "Failed to fetch"). now left.
Defined.

(** ** Splitting and joining *)

Lemma prefix_drop (sep s : string) :
  String.prefix sep s = true ->
  s = (sep ++ drop (String.length sep) s)%string /\
  String.length sep <= String.length s.
Proof.
  revert s. induction sep as [|a sep IH]; intros s H.
  - split; [reflexivity | apply Nat.le_0_l].
  - destruct s as [|c s]; [discriminate|].
    change (String.prefix (String a sep) (String c s))
      with (if ascii_dec a c then String.prefix sep s else false) in H.
    destruct (ascii_dec a c) as [<-|]; [|discriminate].
    destruct (IH s H) as [E L]. simpl. split.
    + now rewrite <- E.
    + now apply le_n_S.
Qed.

Lemma prefix_append (a b : string) : String.prefix a (a ++ b) = true.
Proof.
  induction a as [|c a IH]; [now destruct b|].
  change (String.prefix (String c a) (String c a ++ b))
    with (if ascii_dec c c then String.prefix a (a ++ b) else false).
  destruct (ascii_dec c c); [exact IH | contradiction].
Qed.

Lemma split_from_not_nil (sep : string) (s : string) (skip : nat) (cur : string) :
  split_from sep skip cur s <> [].
Proof.
  revert skip cur. induction s as [|c s IH]; intros skip cur; simpl.
  - discriminate.
  - destruct skip; [|apply IH].
    destruct (String.prefix sep (String c s)); [discriminate | apply IH].
Qed.

Lemma join_cons (sep x : string) (l : list string) :
  l <> [] -> join sep (x :: l) = (x ++ sep ++ join sep l)%string.
Proof. destruct l; [contradiction | reflexivity]. Qed.

Lemma append_assoc (a b c : string) :
  ((a ++ b) ++ c)%string = (a ++ b ++ c)%string.
Proof. induction a as [|x a IH]; simpl; [reflexivity | now rewrite IH]. Qed.

Lemma join_split_from (a : ascii) (sep' : string) (s : string) :
  forall skip cur,
    skip <= String.length s ->
    join (String a sep') (split_from (String a sep') skip cur s) =
    (cur ++ drop skip s)%string.
Proof.
  induction s as [|c s IH]; intros skip cur Hk.
  - simpl in Hk. assert (skip = 0) as -> by lia. simpl.
    now rewrite append_empty_r.
  - destruct skip as [|k].
    + simpl split_from.
      destruct (String.prefix (String a sep') (String c s)) eqn:P.
      * destruct (prefix_drop _ _ P) as [E L].
        rewrite join_cons by apply split_from_not_nil.
        simpl String.length in *. rewrite Nat.sub_0_r.
        rewrite IH by lia.
        change (drop 0 (String c s)) with (String c s).
        change (drop (S (String.length sep')) (String c s))
          with (drop (String.length sep') s) in E.
        rewrite E at 1. reflexivity.
      * rewrite IH by apply Nat.le_0_l. simpl drop.
        apply append_String_assoc.
    + simpl split_from. simpl drop. apply IH. simpl in Hk. lia.
Qed.

Lemma join_app (sep : string) (l1 l2 : list string) :
  l1 <> [] -> l2 <> [] ->
  join sep (l1 ++ l2) = (join sep l1 ++ sep ++ join sep l2)%string.
Proof.
  intros H1 H2. induction l1 as [|x l1 IH]; [contradiction|].
  destruct l1 as [|y l1].
  - change ([x] ++ l2) with (x :: l2).
    rewrite (join_cons sep x l2) by exact H2. reflexivity.
  - change ((x :: y :: l1) ++ l2) with (x :: ((y :: l1) ++ l2)).
    rewrite (join_cons sep x ((y :: l1) ++ l2)) by discriminate.
    rewrite IH by discriminate.
    rewrite (join_cons sep x (y :: l1)) by discriminate.
    now rewrite !append_assoc.
Qed.

Lemma join_firstn_prefix (sep : string) (n : nat) (l : list string) :
  String.prefix (join sep (firstn n l)) (join sep l) = true.
Proof.
  rewrite <- (firstn_skipn n l) at 2.
  destruct (firstn n l) as [|x l1] eqn:F.
  - simpl. now destruct (join sep (skipn n l)).
  - destruct (skipn n l) as [|y l2] eqn:S.
    + rewrite app_nil_r.
      rewrite <- (append_empty_r (join sep (x :: l1))) at 2.
      apply prefix_append.
    + rewrite join_app by discriminate. apply prefix_append.
Qed.

(** The first segment of a split starts with what was read so far. *)
Lemma split_from_head (sep : string) (s : string) (cur : string) :
  exists tail rest, split_from sep 0 cur s = (cur ++ tail)%string :: rest.
Proof.
  revert cur. induction s as [|c s IH]; intros cur; simpl.
  - exists "", []. now rewrite append_empty_r.
  - destruct (String.prefix sep (String c s)).
    + exists "". eexists. now rewrite append_empty_r.
    + destruct (IH (cur ++ String c "")%string) as [tail [rest E]].
      exists (String c tail), rest. rewrite E.
      now rewrite append_String_assoc.
Qed.

(** X13. Splitting a string on a separator that is not empty and
    joining the segments with the separator gives the string back.  So
    the name taken from a question is a prefix of the trimmed question,
    is the whole trimmed question when it has at most six segments, and
    is not empty when the question is not blank. *)
Theorem split_then_join_gives_the_string_back :
  (forall sep s, sep <> "" -> join sep (split sep s) = s) /\
  (forall question, String.prefix (shortName question) (trim question) = true) /\
  (forall question,
      List.length (split " " (trim question)) <= 6 ->
      shortName question = trim question) /\
  (forall question,
      blank question = false -> nonEmpty (shortName question) = true).
Proof.
  assert (R : forall sep s, sep <> "" -> join sep (split sep s) = s).
  { intros sep s Hsep. destruct sep as [|a sep']; [contradiction|].
    unfold split. now rewrite join_split_from by apply Nat.le_0_l. }
  split; [exact R|]. split; [|split].
  - intros question. unfold shortName.
    rewrite <- (R " " (trim question)) at 2 by discriminate.
    apply join_firstn_prefix.
  - intros question H. unfold shortName.
    rewrite firstn_all2 by exact H. apply R. discriminate.
  - intros question Hb. unfold shortName, split.
    pose proof (trim_not_blank question Hb) as Hne.
    destruct (trim_spec question) as [pre [post [_ [_ [_ Hends]]]]].
    destruct Hends as [He | [Hstart _]]; [rewrite He in Hne; discriminate|].
    destruct (trim question) as [|c t]; [discriminate|].
    simpl in Hstart. apply negb_true_iff in Hstart.
    simpl split_from. rewrite (prefix_space c t Hstart).
    destruct (split_from_head " " t (String c "")) as [tail [rest E]].
    rewrite E.
    change (firstn 6 ((String c "" ++ tail)%string :: rest))
      with (String c tail :: firstn 5 rest).
    destruct (firstn 5 rest); reflexivity.
Qed.

Lemma split_then_join_gives_the_string_back_witness :
  join "* " (split "* " "Intro:* one * two* * ") = "Intro:* one * two* * " /\
  List.length (split " " (trim "  Plan a  trip ")) <= 6 /\
  shortName "  Plan a  trip " = "Plan a  trip" /\
  String.prefix (shortName "Hello world foo bar baz qux extra")
                (trim "Hello world foo bar baz qux extra") = true.
Proof.
  destruct split_then_join_gives_the_string_back as [H1 [H2 [H3 _]]].
  split; [apply H1; discriminate|].
  assert (L : List.length (split " " (trim "  Plan a  trip ")) <= 6).
  { vm_compute. lia. }
  split; [exact L|].
  split; [exact (H3 "  Plan a  trip " L) | apply H2].
Defined.

(** ** Reloading the page *)

Lemma commit_keeps_view (st : App) :
  currentSessionId (commit st) = currentSessionId st /\
  messages (commit st) = messages st.
Proof.
  unfold commit. destruct (messagesChanged st); [|split; reflexivity].
  destruct (saveEffect_keeps_view (rendered st)) as [H1 H2].
  rewrite H1, H2. split; reflexivity.
Qed.

(** X14. Reloading the page restores the list: when the ids are unique
    and the store holds the list in memory, mounting the component on
    the store gives the same list, in memory and in the store, and opens
    its first session with its messages, or no session when the list is
    empty. *)
Theorem reload_restores_the_list (st : App) :
  uniqueIds (chatHistory st) ->
  getItem st = chatHistory st ->
  let st' := mount (localStorage st) in
  chatHistory st' = chatHistory st /\
  getItem st' = chatHistory st /\
  match chatHistory st with
  | [] => currentSessionId st' = None /\ messages st' = []
  | first :: _ =>
      currentSessionId st' = Some (Chat.id first) /\
      messages st' = Chat.messages first
  end.
Proof.
  intros Hu Hg st'. subst st'. unfold mount.
  assert (G : getItem (initial (localStorage st)) = chatHistory st).
  { rewrite <- Hg. reflexivity. }
  destruct (commit_keeps_view (loadEffect (initial (localStorage st))))
    as [V1 V2].
  rewrite V1, V2. unfold loadEffect in *. rewrite G in *.
  destruct (chatHistory st) as [|first rest] eqn:L.
  - split; [reflexivity|]. split; [|split; reflexivity].
    unfold commit. simpl. exact G.
  - assert (C : chatHistory
                  (commit
                     (setAttributionShown
                        (mentionsDeveloper (Chat.messages first))
                        (setMessages (Chat.messages first)
                           (setCurrentSessionId (Some (Chat.id first))
                              (setChatHistory (first :: rest)
                                 (initial (localStorage st)))))))
                = first :: rest).
    { rewrite (commit_chatHistory_own _ first); simpl; auto. }
    split; [exact C|]. split; [|split; reflexivity].
    rewrite commit_getItem; [exact C|]. exact G.
Qed.

Lemma reload_restores_the_list_witness :
  let st := perform (TogglePin "1700000000000") (mount [[trip; greetings]]) in
  uniqueIds (chatHistory st) /\
  getItem st = chatHistory st /\
  chatHistory (mount (localStorage st)) =
    [Chat.with_pinned greetings true; trip] /\
  currentSessionId (mount (localStorage st)) = Some "1700000000000".
Proof.
  assert (Hu : uniqueIds
                 (chatHistory
                    (perform (TogglePin "1700000000000")
                       (mount [[trip; greetings]])))).
  { repeat constructor; simpl; intuition discriminate. }
  destruct (reload_restores_the_list _ Hu eq_refl) as [H1 [_ [H3 _]]].
  split; [exact Hu|]. split; [reflexivity|].
  split; [exact H1 | exact H3].
Defined.

(** ** Import keeps what is there *)

Lemma mergeChats_incl (imported chatHistory : list Chat.t) (chat : Chat.t) :
  In chat chatHistory -> In chat (mergeChats chatHistory imported).
Proof.
  unfold mergeChats. revert chatHistory.
  induction imported as [|impChat imported IH]; intros chatHistory H; simpl.
  - exact H.
  - apply IH. rewrite mergeChat_present.
    destruct (present (Chat.id impChat) chatHistory); [exact H|].
    apply in_or_app. now left.
Qed.

Lemma mergeChats_length (imported chatHistory : list Chat.t) :
  List.length chatHistory <= List.length (mergeChats chatHistory imported) /\
  List.length (mergeChats chatHistory imported) <=
  List.length chatHistory + List.length imported.
Proof.
  unfold mergeChats. revert chatHistory.
  induction imported as [|impChat imported IH]; intros chatHistory; simpl.
  - lia.
  - destruct (IH (mergeChat chatHistory impChat)) as [H1 H2].
    rewrite mergeChat_present in *.
    destruct (present (Chat.id impChat) chatHistory).
    + lia.
    + rewrite length_app in *. simpl in *. lia.
Qed.

Section ImportKeeps.

Context {collation : Collation}.

(** X15. An import never removes or alters a session of the list,
    whatever the file holds: every session of before is in the list of
    after, which has at least as many sessions and at most as many more
    as the document has.  A file that does not parse, or parses to
    something else than an array, leaves the list and the store as they
    are and shows one alert. *)
Theorem import_keeps_every_session (st : App) (parse : Parse) :
  let st' := importChats parse st in
  (forall chat, In chat (chatHistory st) -> In chat (chatHistory st')) /\
  List.length (chatHistory st) <= List.length (chatHistory st') /\
  (forall items, parse = Parsed (ImportedArray items) ->
                 List.length (chatHistory st') <=
                 List.length (chatHistory st) + List.length items) /\
  (forall message, parse = SyntaxError message ->
                   st' = alert ("Failed to import chats: " ++ message) st) /\
  ((forall items, parse <> Parsed (ImportedArray items)) ->
   chatHistory st' = chatHistory st /\ localStorage st' = localStorage st /\
   List.length (alerts st') = S (List.length (alerts st))).
Proof.
  intros st'. subst st'.
  destruct parse as [message | imported].
  - split; [auto|]. split; [auto|]. split; [discriminate|].
    split; [intros m E; injection E as <-; reflexivity|].
    intros _. repeat split.
  - destruct imported as [items| | | | |];
      try (split; [auto|]; split; [auto|]; split; [discriminate|];
           split; [discriminate|]; intros _; repeat split).
    split; [|split; [|split; [|split]]].
    + intros chat Hin. rewrite importChats_array. unfold sortChats.
      apply (Permutation_in _ (Permutation_sym (sort_Permutation _ _))).
      now apply mergeChats_incl.
    + rewrite importChats_array. unfold sortChats. rewrite sort_length.
      apply mergeChats_length.
    + intros items' E. injection E as <-.
      rewrite importChats_array. unfold sortChats. rewrite sort_length.
      apply mergeChats_length.
    + discriminate.
    + intros H. exfalso. now apply (H items).
Qed.

End ImportKeeps.

Lemma import_keeps_every_session_witness :
  let st := mount [[trip; greetings]] in
  In trip (chatHistory (importChats (Parsed (ImportedArray [tripCopy; newChat])) st)) /\
  chatHistory (importChats (Parsed (ImportedArray [tripCopy; newChat])) st) =
    [newChat; trip; greetings] /\
  importChats (SyntaxError "Unexpected token } in JSON at position 1") st =
    alert "Failed to import chats: Unexpected token } in JSON at position 1" st.
Proof.
  destruct (import_keeps_every_session (mount [[trip; greetings]])
              (Parsed (ImportedArray [tripCopy; newChat]))) as [H _].
  destruct (import_keeps_every_session (mount [[trip; greetings]])
              (SyntaxError "Unexpected token } in JSON at position 1"))
    as [_ [_ [_ [H' _]]]].
  split; [apply H; now left|].
  split; [vm_compute; reflexivity | now apply H'].
Defined.

(** ** Rename keeps the rest *)

Lemma trim_idempotent (s : string) : trim (trim s) = trim s.
Proof.
  destruct (trim_spec s) as [pre [post [_ [_ [_ H]]]]].
  destruct H as [-> | [Hs He]]; [reflexivity|].
  unfold trim at 1.
  assert (T : trimStart (trim s) = trim s).
  { destruct (trim s) as [|c t]; [reflexivity|]. simpl in *.
    apply negb_true_iff in Hs. now rewrite Hs. }
  rewrite T. now apply trimEnd_endsBlack.
Qed.

Lemma blank_trim (s : string) : blank (trim s) = blank s.
Proof.
  destruct (blank s) eqn:B.
  - now rewrite trim_blank.
  - pose proof (trim_not_blank s B) as Hne.
    destruct (blank (trim s)) eqn:B'; [|reflexivity].
    apply trim_blank in B'. rewrite trim_idempotent in B'.
    rewrite B' in Hne. discriminate.
Qed.

(** X16. A rename changes names only: the ids, the pinned flags, the
    messages and the order of the sessions stay, and so do the active
    session and the messages shown; a session with another id is left
    as it is, and when no session has the id the list is unchanged.
    White space around the name typed makes no difference to the list
    obtained. *)
Theorem rename_changes_names_only (st : App) (id newName : string) :
  let st' := saveRename id (setRenameText newName st) in
  ids (chatHistory st') = ids (chatHistory st) /\
  map Chat.pinned (chatHistory st') = map Chat.pinned (chatHistory st) /\
  map Chat.messages (chatHistory st') = map Chat.messages (chatHistory st) /\
  currentSessionId st' = currentSessionId st /\
  messages st' = messages st /\
  (forall chat, In chat (chatHistory st) -> Chat.id chat <> id ->
                In chat (chatHistory st')) /\
  (present id (chatHistory st) = false -> chatHistory st' = chatHistory st) /\
  chatHistory (saveRename id (setRenameText (trim newName) st)) =
    chatHistory st'.
Proof.
  intros st'. subst st'. rewrite !saveRename_unless_blank, blank_trim.
  destruct (blank newName); simpl.
  - repeat split; auto.
  - split; [apply ids_map_same, renamed_id|].
    split; [rewrite map_map; apply map_ext; intros chat; unfold renamed;
            now destruct (Chat.id chat =? id)%string|].
    split; [rewrite map_map; apply map_ext; intros chat; unfold renamed;
            now destruct (Chat.id chat =? id)%string|].
    split; [reflexivity|]. split; [reflexivity|].
    split; [|split].
    + intros chat Hin Hid. apply in_map_iff. exists chat.
      split; [|exact Hin]. unfold renamed.
      apply String.eqb_neq in Hid. now rewrite Hid.
    + intros Hp. rewrite <- (map_id (chatHistory st)) at 2.
      apply map_ext_in. intros chat Hin. unfold renamed.
      destruct (Chat.id chat =? id)%string eqn:E; [|reflexivity].
      apply String.eqb_eq in E. exfalso.
      assert (present id (chatHistory st) = true); [|congruence].
      apply present_In. rewrite <- E. unfold ids. now apply in_map.
    + apply map_ext. intros chat. unfold renamed.
      now rewrite trim_idempotent.
Qed.

Lemma rename_changes_names_only_witness :
  let st := togglePinChat "1700000000000" (mount [[trip; greetings]]) in
  let st' := saveRename "1700000000001" (setRenameText " Journey " st) in
  chatHistory st' =
    [Chat.with_pinned greetings true;
     Chat.mk "1700000000001" "Journey" false []] /\
  ids (chatHistory st') = ids (chatHistory st) /\
  In (Chat.with_pinned greetings true) (chatHistory st').
Proof.
  destruct (rename_changes_names_only
              (togglePinChat "1700000000000" (mount [[trip; greetings]]))
              "1700000000001" " Journey ") as [H1 [_ [_ [_ [_ [H6 _]]]]]].
  split; [vm_compute; reflexivity|]. split; [exact H1|].
  apply H6; [vm_compute; tauto | discriminate].
Defined.

(** ** Ids and the clock, again *)

Lemma to_uint_not_Nil (now : N) : N.to_uint now <> Nil.
Proof.
  destruct now as [|p]; [discriminate|].
  apply DecimalPos.Unsigned.to_uint_nonnil.
Qed.

(** X17. The id is the clock reading and nothing else: two readings
    print the same id only when they are the same reading, the id is
    never empty, and of two readings from 2001-09-09 to 2286-11-20
    (thirteen digits) the later prints the id that comes after in the
    order of the code units, so that the comparator of the list puts
    the newer of two sessions with the same pinned flag first. *)
Theorem ids_follow_the_clock (now1 now2 : N) :
  (toString now1 = toString now2 <-> now1 = now2) /\
  nonEmpty (toString now1) = true /\
  ((10 ^ 12 <= now1)%N -> (now1 < now2)%N -> (now2 < 10 ^ 13)%N ->
   (localeCompare (toString now1) (toString now2) < 0)%Z /\
   forall a b,
     Chat.id a = toString now1 -> Chat.id b = toString now2 ->
     Chat.pinned a = Chat.pinned b ->
     (compareChats b a < 0)%Z /\ sortChats [a; b] = [b; a]).
Proof.
  split; [|split].
  - split; [|now intros ->].
    intros H. unfold toString in H.
    apply DecimalN.Unsigned.to_uint_inj.
    assert (S : NilZero.uint_of_string
                  (NilZero.string_of_uint (N.to_uint now1)) =
                NilZero.uint_of_string
                  (NilZero.string_of_uint (N.to_uint now2)))
      by now rewrite H.
    rewrite !NilZero.usu in S by apply to_uint_not_Nil.
    now injection S.
  - apply toString_nonEmpty.
  - intros Hlo Hlt Hhi. split.
    + now apply newer_id_collates_last.
    + intros a b Ha Hb Hp.
      assert (C : (compareChats b a < 0)%Z)
        by now apply (newer_session_sorts_first now1 now2).
      split; [exact C|].
      unfold sortChats. simpl.
      pose proof (compareChats_total b a) as T.
      destruct (compareChats a b <=? 0)%Z eqn:E; [|reflexivity].
      apply Z.leb_le in E.
      pose proof (compareChats_total a b) as T'.
      unfold compareChats in *. rewrite Ha, Hb, Hp, Bool.eqb_reflx in *.
      pose proof (localeCompare_antisym (toString now1) (toString now2)).
      lia.
Qed.

Lemma ids_follow_the_clock_witness :
  (10 ^ 12 <= 1700000000000)%N /\ (1700000000000 < 1700000000001)%N /\
  (1700000000001 < 10 ^ 13)%N /\
  Chat.id greetings = toString 1700000000000 /\
  Chat.id trip = toString 1700000000001 /\
  sortChats [greetings; trip] = [trip; greetings].
Proof.
  assert (H1 : (10 ^ 12 <= 1700000000000)%N) by (vm_compute; discriminate).
  assert (H2 : (1700000000000 < 1700000000001)%N) by reflexivity.
  assert (H3 : (1700000000001 < 10 ^ 13)%N) by reflexivity.
  destruct (ids_follow_the_clock 1700000000000 1700000000001)
    as [_ [_ H]].
  destruct (H H1 H2 H3) as [_ Hs].
  destruct (Hs greetings trip eq_refl eq_refl eq_refl) as [_ Hsort].
  repeat split; assumption.
Defined.

(** ** The lines of a reply *)

Lemma prefix_app_mono (sep v s : string) :
  String.prefix sep v = true -> String.prefix sep (v ++ s) = true.
Proof.
  revert v. induction sep as [|a sep IH]; intros v H.
  - now destruct (v ++ s)%string.
  - destruct v as [|c v]; [discriminate|].
    change (String.prefix (String a sep) (String c v))
      with (if ascii_dec a c then String.prefix sep v else false) in H.
    change (String.prefix (String a sep) (String c v ++ s))
      with (if ascii_dec a c then String.prefix sep (v ++ s) else false).
    destruct (ascii_dec a c); [now apply IH | discriminate].
Qed.

Lemma includes_false_intro (sep x : string) :
  (forall u v, x = (u ++ v)%string -> String.prefix sep v = false) ->
  includes sep x = false.
Proof.
  induction x as [|c x IH]; intros H.
  - simpl. rewrite (H "" "" eq_refl). reflexivity.
  - change (includes sep (String c x))
      with (String.prefix sep (String c x) || includes sep x).
    rewrite (H "" (String c x) eq_refl). simpl.
    apply IH. intros u v E. apply (H (String c u) v). simpl. now rewrite E.
Qed.

Lemma includes_true_elim (sep x : string) :
  includes sep x = true ->
  exists u v, x = (u ++ v)%string /\ String.prefix sep v = true.
Proof.
  induction x as [|c x IH].
  - simpl. rewrite orb_false_r. intros H. now exists "", "".
  - change (includes sep (String c x))
      with (String.prefix sep (String c x) || includes sep x).
    intros H. apply orb_true_iff in H. destruct H as [H | H].
    + now exists "", (String c x).
    + destruct (IH H) as [u [v [E P]]].
      exists (String c u), v. simpl. now rewrite E.
Qed.

Lemma includes_true_intro (sep u v : string) :
  String.prefix sep v = true -> includes sep (u ++ v) = true.
Proof.
  intros P. induction u as [|c u IH].
  - simpl. destruct v; simpl; now rewrite P.
  - change (includes sep (String c u ++ v))
      with (String.prefix sep (String c (u ++ v)) || includes sep (u ++ v)).
    rewrite IH. apply orb_true_r.
Qed.

(** A part of a string without the separator has none either. *)
Lemma includes_middle (sep a b c : string) :
  includes sep (a ++ b ++ c) = false -> includes sep b = false.
Proof.
  intros H. destruct (includes sep b) eqn:E; [|reflexivity].
  destruct (includes_true_elim _ _ E) as [u [v [-> P]]].
  rewrite <- H.
  replace (a ++ (u ++ v) ++ c)%string with ((a ++ u) ++ (v ++ c))%string
    by now rewrite !append_assoc.
  symmetry. apply includes_true_intro. now apply prefix_app_mono.
Qed.

Lemma append_snoc_cases (u v cur : string) (c : ascii) :
  (u ++ v)%string = (cur ++ String c "")%string -> v <> "" ->
  exists v0, v = (v0 ++ String c "")%string /\ cur = (u ++ v0)%string.
Proof.
  revert cur. induction u as [|a u IH]; intros cur E Hv.
  - simpl in E. now exists cur.
  - destruct cur as [|a' cur]; simpl in E.
    + injection E as _ E.
      destruct u; simpl in E; [subst v; contradiction | discriminate].
    + injection E as <- E. destruct (IH cur E Hv) as [v0 [E1 E2]].
      exists v0. split; [exact E1|]. simpl. now rewrite E2.
Qed.

Lemma startsNoSeparator_free (a : ascii) (sep' cur s : string) :
  startsNoSeparator (String a sep') cur s ->
  includes (String a sep') cur = false.
Proof.
  intros H. apply includes_false_intro. intros u v E.
  destruct v as [|c v]; [reflexivity|].
  destruct (String.prefix (String a sep') (String c v)) eqn:P; [|reflexivity].
  rewrite <- (H u (String c v) E); [|discriminate].
  symmetry. now apply prefix_app_mono.
Qed.

Lemma split_from_free (a : ascii) (sep' : string) (s : string) :
  forall skip cur,
    (skip = 0 -> startsNoSeparator (String a sep') cur s) ->
    (skip <> 0 -> cur = "") ->
    Forall (fun segment => includes (String a sep') segment = false)
           (split_from (String a sep') skip cur s).
Proof.
  induction s as [|c s IH]; intros skip cur H0 H1.
  - simpl. constructor; [|constructor].
    destruct skip.
    + now apply (startsNoSeparator_free a sep' cur "" ), H0.
    + now rewrite H1.
  - destruct skip as [|k].
    + specialize (H0 eq_refl). simpl split_from.
      destruct (String.prefix (String a sep') (String c s)) eqn:P.
      * constructor.
        -- now apply (startsNoSeparator_free a sep' cur (String c s)).
        -- apply IH; [|reflexivity].
           intros _ u v E Hv. destruct u, v; try discriminate.
           contradiction.
      * apply IH; [|contradiction].
        intros _ u v E Hv.
        destruct (append_snoc_cases u v cur c (eq_sym E) Hv) as [v0 [-> Ec]].
        rewrite append_String_assoc.
        destruct v0 as [|d v0]; [exact P|].
        apply (H0 u (String d v0) Ec). discriminate.
    + simpl split_from. apply IH.
      * intros _ u v E Hv. rewrite H1 in E by discriminate.
        destruct u, v; try discriminate. contradiction.
      * intros _. apply H1. discriminate.
Qed.

(** X18. Every line of a bot message that comes from a reply is not
    empty, neither starts nor ends with white space, and does not
    contain the delimiter "* ". *)
Theorem bot_lines_are_clean (reply line : string) :
  In line (botLines reply) ->
  nonEmpty line = true /\
  startsBlack line = true /\ endsBlack line = true /\
  includes "* " line = false.
Proof.
  unfold botLines. intros H. apply filter_In in H. destruct H as [Hin Hne].
  apply in_map_iff in Hin. destruct Hin as [segment [<- Hseg]].
  destruct (trim_spec segment) as [pre [post [_ [_ [E Hends]]]]].
  destruct Hends as [He | [Hs He]]; [rewrite He in Hne; discriminate|].
  split; [exact Hne|]. split; [exact Hs|]. split; [exact He|].
  apply (includes_middle "* " pre (trim segment) post). rewrite <- E.
  pose proof (split_from_free "*" " " reply 0 "") as F.
  rewrite Forall_forall in F. apply F; [| |exact Hseg].
  - intros _ u v Ev Hv. destruct u, v; try discriminate. contradiction.
  - contradiction.
Qed.

Lemma bot_lines_are_clean_witness :
  In "one" (botLines "Intro:* one * two* * ") /\
  botLines "**  * a *b* " = ["*"; "a *b"] /\
  includes "* " "a *b" = false.
Proof.
  assert (H : In "one" (botLines "Intro:* one * two* * "))
    by (vm_compute; tauto).
  assert (H' : In "a *b" (botLines "**  * a *b* "))
    by (vm_compute; tauto).
  destruct (bot_lines_are_clean _ _ H') as [_ [_ [_ Hfree]]].
  split; [exact H|]. split; [vm_compute; reflexivity | exact Hfree].
Defined.

(** ** The text read from a response *)

(** X19. A response whose first candidate has a content whose first
    part has a text gives that text as the reply, whatever else the
    response holds (other members, more candidates, more parts); when
    the text is a string that is not empty, the bot message appended
    holds its lines. *)
Theorem reply_is_the_text_of_the_first_part
  (response candidate content part : list (string * json))
  (candidates parts : list json) (text : json) :
  member "candidates" response = Some (JArray (JObject candidate :: candidates)) ->
  member "content" candidate = Some (JObject content) ->
  member "parts" content = Some (JArray (JObject part :: parts)) ->
  member "text" part = Some text ->
  replyText (JObject response) = Normal (Some text) /\
  rawReply (JObject response) =
    Normal (if toBoolean (Some text) then Some text else noResponse) /\
  (forall s now st,
      text = JString s -> nonEmpty s = true ->
      messages (askQuestionSettled (Body (JObject response)) now st) =
      messages st ++ [mkMessage bot (Lines (botLines s)) now]).
Proof.
  intros H1 H2 H3 H4.
  assert (T : replyText (JObject response) = Normal (Some text)).
  { unfold replyText, replyPath. simpl. unfold optionalChain. simpl.
    rewrite H1. simpl. rewrite H2. simpl. rewrite H3. simpl.
    rewrite H4. destruct text; reflexivity. }
  split; [exact T|]. split.
  - unfold rawReply. rewrite T. reflexivity.
  - intros s now st -> Hs. unfold askQuestionSettled, replyTry, rawReply.
    rewrite T. simpl. unfold or. simpl. rewrite Hs. reflexivity.
Qed.

Lemma reply_is_the_text_of_the_first_part_witness :
  let part := [("text", JString "* Flights* Hotels"); ("thought", JBool false)] in
  let content := [("role", JString "model");
                  ("parts", JArray [JObject part; JObject [("text", JString "more")]])] in
  let candidate := [("content", JObject content); ("index", JNumber 0%float)] in
  let response := [("candidates", JArray [JObject candidate; JObject []]);
                   ("modelVersion", JString "x")] in
  rawReply (JObject response) = Normal (Some (JString "* Flights* Hotels")) /\
  messages (askQuestionSettled (Body (JObject response))
              "2024-01-01T00:00:02.000Z" greetingsOpen) =
    [mkMessage bot (Lines ["Flights"; "Hotels"]) "2024-01-01T00:00:02.000Z"].
Proof.
  destruct (reply_is_the_text_of_the_first_part
              [("candidates",
                JArray [JObject [("content",
                          JObject [("role", JString "model");
                                   ("parts",
                                    JArray [JObject [("text", JString "* Flights* Hotels");
                                                     ("thought", JBool false)];
                                            JObject [("text", JString "more")]])]);
                         ("index", JNumber 0%float)];
                        JObject []]);
               ("modelVersion", JString "x")]
              _ _ _ _ _ _ eq_refl eq_refl eq_refl eq_refl) as [_ [H2 H3]].
  split; [exact H2|].
  exact (H3 "* Flights* Hotels" "2024-01-01T00:00:02.000Z" greetingsOpen
            eq_refl eq_refl).
Defined.

(** ** Refresh and the rename editor *)

(** X20. "Refresh Chat" empties the messages shown and, after the
    render, the messages of the active session in the list and in the
    store; the ids, the names and the pinned flags of all sessions stay,
    and so does every session with another id. *)
Theorem refresh_empties_the_active_session (st : App) (current : string) :
  currentSessionId st = Some current ->
  nonEmpty current = true ->
  let st' := commit (refreshChat st) in
  messages st' = [] /\
  currentSessionId st' = Some current /\
  chatHistory st' = map (withMessages current []) (chatHistory st) /\
  getItem st' = chatHistory st' /\
  ids (chatHistory st') = ids (chatHistory st) /\
  map Chat.name (chatHistory st') = map Chat.name (chatHistory st) /\
  map Chat.pinned (chatHistory st') = map Chat.pinned (chatHistory st) /\
  (forall chat, In chat (chatHistory st') -> Chat.id chat = current ->
                Chat.messages chat = []) /\
  (forall chat, In chat (chatHistory st) -> Chat.id chat <> current ->
                In chat (chatHistory st')).
Proof.
  intros Hcur Hne st'.
  assert (C : chatHistory st' = map (withMessages current []) (chatHistory st)).
  { subst st'. unfold commit, refreshChat. simpl.
    rewrite saveEffect_chatHistory. simpl. now rewrite Hcur, Hne. }
  assert (V : messages st' = [] /\ currentSessionId st' = Some current).
  { subst st'. destruct (commit_keeps_view (refreshChat st)) as [V1 V2].
    rewrite V1, V2. simpl. now split. }
  destruct V as [V1 V2].
  split; [exact V1|]. split; [exact V2|]. split; [exact C|].
  split.
  { subst st'. unfold commit, refreshChat, saveEffect, noSession. simpl.
    rewrite Hcur, Hne. reflexivity. }
  rewrite C.
  split; [apply ids_map_withMessages|].
  split; [apply names_map_withMessages|].
  split; [rewrite map_map; apply map_ext; intros chat; unfold withMessages;
          now destruct (Chat.id chat =? current)%string|].
  split.
  - intros chat Hin Hid. apply in_map_iff in Hin.
    destruct Hin as [c [<- _]]. unfold withMessages in *.
    destruct (Chat.id c =? current)%string eqn:E; [reflexivity|].
    apply String.eqb_neq in E. contradiction.
  - intros chat Hin Hid. apply in_map_iff. exists chat.
    split; [|exact Hin]. unfold withMessages.
    apply String.eqb_neq in Hid. now rewrite Hid.
Qed.

Lemma refresh_empties_the_active_session_witness :
  let ops :=
    [Send "Plan a trip to Rome" "2024-01-01T00:00:00.000Z";
     Receive (Body (body (JString "* Flights* Hotels")))
       "2024-01-01T00:00:02.000Z"] in
  let st := run ops (mount [[newChat; greetings]]) in
  currentSessionId st = Some "1700000000002" /\
  List.length (messages st) = 2 /\
  chatHistory (commit (refreshChat st)) =
    [Chat.mk "1700000000002" "Plan a trip to Rome" false []; greetings] /\
  getItem (commit (refreshChat st)) =
    [Chat.mk "1700000000002" "Plan a trip to Rome" false []; greetings].
Proof.
  split; [reflexivity|]. split; [reflexivity|].
  destruct (refresh_empties_the_active_session
              (run [Send "Plan a trip to Rome" "2024-01-01T00:00:00.000Z";
                    Receive (Body (body (JString "* Flights* Hotels")))
                      "2024-01-01T00:00:02.000Z"]
                 (mount [[newChat; greetings]]))
              "1700000000002" eq_refl eq_refl) as [_ [_ [H3 [H4 _]]]].
  split; [rewrite H3 | rewrite H4, H3]; vm_compute; reflexivity.
Defined.

(** X21. Opening the rename editor on a session and pressing Enter
    without typing leaves the list as it is when the name has no white
    space at its ends and the ids are unique, and is refused, with the
    editor left open, when the name is blank.  Pressing Escape closes
    the editor and changes neither the list nor the store, whatever was
    typed; any other key does nothing. *)
Theorem rename_editor_keys (st : App) (chat : Chat.t) (typed key : string) :
  In chat (chatHistory st) ->
  let opened := startRenaming (Chat.id chat) (Chat.name chat) st in
  let entered := handleRenameKey "Enter" (Chat.id chat) opened in
  let escaped :=
    handleRenameKey "Escape" (Chat.id chat) (setRenameText typed opened) in
  editingChatId opened = Some (Chat.id chat) /\
  (blank (Chat.name chat) = true -> entered = opened) /\
  (blank (Chat.name chat) = false ->
   trim (Chat.name chat) = Chat.name chat ->
   uniqueIds (chatHistory st) ->
   chatHistory entered = chatHistory st /\ editingChatId entered = None) /\
  (chatHistory escaped = chatHistory st /\
   localStorage escaped = localStorage st /\
   editingChatId escaped = None) /\
  (key <> "Enter" -> key <> "Escape" ->
   handleRenameKey key (Chat.id chat) opened = opened).
Proof.
  intros Hin opened entered escaped. subst opened entered escaped.
  split; [reflexivity|].
  assert (E : forall s,
             handleRenameKey "Enter" (Chat.id chat) s =
             saveRename (Chat.id chat) s) by reflexivity.
  split; [|split; [|split]].
  - intros Hb. rewrite E. unfold startRenaming.
    rewrite (saveRename_unless_blank
               (setEditingChatId (Some (Chat.id chat)) st)), Hb.
    reflexivity.
  - intros Hb Ht Hu. rewrite E. unfold startRenaming.
    rewrite (saveRename_unless_blank
               (setEditingChatId (Some (Chat.id chat)) st)), Hb.
    simpl. split; [|reflexivity].
    rewrite <- (map_id (chatHistory st)) at 2.
    apply map_ext_in. intros c Hc. unfold renamed.
    destruct (Chat.id c =? Chat.id chat)%string eqn:I; [|reflexivity].
    apply String.eqb_eq in I.
    assert (c = chat) as ->.
    { clear - Hu Hin Hc I. unfold uniqueIds, ids in Hu.
      induction (chatHistory st) as [|x l IH]; [contradiction|].
      simpl in Hu. inversion Hu as [|? ? Hx Hl]; subst.
      destruct Hin as [-> | Hin], Hc as [-> | Hc]; auto.
      - exfalso. apply Hx. rewrite <- I. now apply in_map.
      - exfalso. apply Hx. rewrite I. now apply in_map. }
    rewrite Ht. now destruct chat.
  - repeat split.
  - intros H1 H2. unfold handleRenameKey.
    apply String.eqb_neq in H1, H2. now rewrite H1, H2.
Qed.

Lemma rename_editor_keys_witness :
  let st := mount [[trip; greetings]] in
  let opened := startRenaming "1700000000001" "Trip" st in
  In trip (chatHistory st) /\
  chatHistory (handleRenameKey "Enter" "1700000000001" opened) =
    [trip; greetings] /\
  editingChatId (handleRenameKey "Enter" "1700000000001" opened) = None /\
  chatHistory (handleRenameKey "Escape" "1700000000001"
                 (setRenameText "Journey" opened)) = [trip; greetings] /\
  handleRenameKey "a" "1700000000001" opened = opened.
Proof.
  assert (Hin : In trip (chatHistory (mount [[trip; greetings]])))
    by (vm_compute; tauto).
  assert (Hu : uniqueIds (chatHistory (mount [[trip; greetings]]))).
  { repeat constructor; simpl; intuition discriminate. }
  destruct (rename_editor_keys (mount [[trip; greetings]]) trip "Journey" "a" Hin)
    as [_ [_ [H3 [[H4 _] H5]]]].
  destruct (H3 eq_refl eq_refl Hu) as [H31 H32].
  split; [exact Hin|]. split; [exact H31|]. split; [exact H32|].
  split; [exact H4|]. apply H5; discriminate.
Defined.

(** ** Further instances *)

Lemma togglePin_twice_restores_the_flags_witness :
  let st := mount [[trip; greetings]] in
  let once := togglePinChat "1700000000000" st in
  let twice := togglePinChat "1700000000000" once in
  chatHistory once = [Chat.with_pinned greetings true; trip] /\
  chatHistory twice = [trip; greetings] /\
  Permutation (chatHistory twice) (chatHistory st) /\
  present "1700000000009" (chatHistory st) = false /\
  chatHistory (togglePinChat "1700000000009" st) = [trip; greetings].
Proof.
  destruct (togglePin_twice_restores_the_flags
              (mount [[trip; greetings]]) "1700000000000") as [H1 _].
  destruct (togglePin_twice_restores_the_flags
              (mount [[trip; greetings]]) "1700000000009")
    as [_ [_ [_ [H4 _]]]].
  split; [reflexivity|]. split; [reflexivity|]. split; [exact H1|].
  split; [reflexivity|]. rewrite (H4 eq_refl). reflexivity.
Defined.

Lemma import_twice_is_import_once_witness :
  let parse := Parsed (ImportedArray [tripCopy; newChat; newChat]) in
  let once := importChats parse greetingsOpen in
  chatHistory once = [tripCopy; newChat; greetings] /\
  chatHistory (importChats parse once) = [tripCopy; newChat; greetings].
Proof.
  destruct (import_twice_is_import_once greetingsOpen
              (Parsed (ImportedArray [tripCopy; newChat; newChat])))
    as [H _].
  split; [reflexivity|]. rewrite H. reflexivity.
Defined.

Lemma messages_shown_are_the_active_session_witness :
  let ops :=
    [Create 1700000000003;
     Send "Plan a trip to Rome" "2024-01-01T00:00:00.000Z";
     Load "1700000000000";
     Receive (FetchFailed "Failed to fetch") "2024-01-01T00:00:02.000Z";
     Import (Parsed (ImportedArray [trip; greetingsRenamed]))] in
  let st := run ops (mount [[greetings]]) in
  currentSessionId st = Some "1700000000000" /\
  showsActiveSession st /\
  messages st =
    [mkMessage bot (Lines ["Error: Could not fetch response."])
       "2024-01-01T00:00:02.000Z"] /\
  findChat "1700000000000" (getItem st) =
    Some (Chat.with_messages greetings (messages st)).
Proof.
  destruct (messages_shown_are_the_active_session [[greetings]]
              [Create 1700000000003;
               Send "Plan a trip to Rome" "2024-01-01T00:00:00.000Z";
               Load "1700000000000";
               Receive (FetchFailed "Failed to fetch") "2024-01-01T00:00:02.000Z";
               Import (Parsed (ImportedArray [trip; greetingsRenamed]))])
    as [H _].
  split; [reflexivity|]. split; [exact H|].
  split; vm_compute; reflexivity.
Defined.
